(** * Sports-Odds MCP server: session routing and report pipelines

    A shallow embedding of [http-mcp-server.js]: the session table and the
    POST/GET handlers of the [/mcp] route, the two tools
    [fetch_sports_odds] and [fetch_player_props] with their input schemas,
    the provider calls they issue and the text reports they build.

    Part I holds the definitions: JavaScript values, the session table,
    the provider's data and the network, the two tools, startup, and the
    notions the statements use.  Part II holds the lemmas and the theorems
    about them. *)

From Stdlib Require Import QArith Ascii String.
From stdpp Require Import gmap strings list pretty.

Local Open Scope string_scope.
Local Open Scope list_scope.

(** * Part I: definitions *)

(** ** JavaScript strings

    A string is well-formed Unicode text, held as the bytes of its UTF-8
    encoding: one string occurs in another as a run of bytes exactly when
    it occurs in it as a run of characters, and the ASCII characters the
    code writes or tests are single bytes.  [String.prototype.toLowerCase]
    and [toUpperCase] follow the Unicode case mappings and belong to the
    engine (see [Engine] below); the two maps defined here act on the
    letters A-Z and a-z alone and serve the examples, whose text is
    ASCII. *)

Definition ascii_lower (c : ascii) : ascii :=
  let n := nat_of_ascii c in
  if (65 <=? n)%nat && (n <=? 90)%nat then ascii_of_nat (n + 32) else c.

Definition ascii_upper (c : ascii) : ascii :=
  let n := nat_of_ascii c in
  if (97 <=? n)%nat && (n <=? 122)%nat then ascii_of_nat (n - 32) else c.

Fixpoint map_chars (f : ascii → ascii) (s : string) : string :=
  match s with
  | EmptyString => EmptyString
  | String c s' => String (f c) (map_chars f s')
  end.

Definition ascii_toLowerCase : string → string := map_chars ascii_lower.
Definition ascii_toUpperCase : string → string := map_chars ascii_upper.

(** [s.replace(/_/g, ' ')] *)
Definition replace_underscores : string → string :=
  map_chars (λ c, if Ascii.eqb c "_" then " "%char else c).

(** [hay.startsWith(needle)], the test [includes] makes at each position. *)
Fixpoint startsWith (hay needle : string) : bool :=
  match needle, hay with
  | EmptyString, _ => true
  | String _ _, EmptyString => false
  | String a needle', String b hay' => Ascii.eqb a b && startsWith hay' needle'
  end.

(** [hay.includes(needle)] *)
Fixpoint includes (hay needle : string) : bool :=
  startsWith hay needle ||
  match hay with
  | EmptyString => false
  | String _ hay' => includes hay' needle
  end.

(** [l.join(sep)] *)
Fixpoint join (sep : string) (l : list string) : string :=
  match l with
  | [] => ""
  | [x] => x
  | x :: rest => x +:+ sep +:+ join sep rest
  end.

(** Truthiness of a string: only the empty string is falsy. *)
Definition truthy_string (s : string) : bool := negb (String.eqb s "").

(** Truthiness of an optional string ([undefined] is falsy). *)
Definition truthy_opt_string (o : option string) : bool :=
  match o with
  | Some s => truthy_string s
  | None => false
  end.

(** ** JavaScript numbers

    A number read from the provider's JSON is a finite rational.  Zero is
    the only falsy one. *)

Definition truthy_number (q : Q) : bool := negb (Qnum q =? 0)%Z.

(** What the JavaScript engine and its locale decide: how a number prints
    in a template literal, how [new Date(t).toLocaleString()] prints an
    ISO timestamp, and the case mappings [s.toLowerCase()] and
    [s.toUpperCase()], of which the one fact used is that the empty
    string lower-cases to itself. *)
Class Engine := {
  number_to_string : Q → string;
  date_toLocaleString : string → string;
  toLowerCase : string → string;
  toUpperCase : string → string;
  toLowerCase_empty : toLowerCase "" = "";
}.

(** ** Exceptions *)

Inductive completion (A : Type) : Type :=
  | Normal (a : A)
  | Throw (message : string).
Arguments Normal {A} a.
Arguments Throw {A} message.

(** ** Session table (lines 13-14 and 259-333)

    A transport is an object with an identity; the instances created so
    far sit in [created], and the position of an instance there is its
    identity.  Each one remembers the [newSessionId] it was created for
    (its [sessionId] field, also captured by its [onclose] handler) and
    whether it has closed.

    [transports] is the table [const transports = {}], a plain object.
    Its keys other than [__proto__] are its own properties.  The key
    [__proto__] is never an own property: assigning to it replaces the
    prototype of the table, reading it returns that prototype, and
    deleting it does nothing.  The entry of the map under [__proto__]
    stands for that prototype slot: it is there when line 280 has made a
    transport the table's prototype, and absent while the prototype is
    still [Object.prototype]. *)

Record transport := {
  sessionId : string;
  closed : bool;
}.

Record server := {
  transports : gmap string nat;
  created : list transport;
}.

Definition initial_server : server :=
  {| transports := ∅; created := [] |}.

(** [transports] is a plain object, so reading a key it does not own
    falls through to [Object.prototype]. *)
Definition object_prototype_keys : list string :=
  [ "constructor"; "__proto__"; "hasOwnProperty"; "isPrototypeOf";
    "propertyIsEnumerable"; "toLocaleString"; "toString"; "valueOf";
    "__defineGetter__"; "__defineSetter__"; "__lookupGetter__";
    "__lookupSetter__" ].

(** What the SDK decides: which names, read from a transport object, give
    a truthy value (a field that is set, a method).  The source shows
    three of them: [onclose], assigned at line 283, and [handleRequest]
    and [close], called at lines 294 and 355.  None of these values is
    taken to be a transport itself: handing a request to one throws.
    The members are taken to be writable data properties, as the
    assignments of lines 279 and 283 take [sessionId] and [onclose] to
    be, so that an assignment to the table under the name of one makes
    an entry of the table. *)
Class Sdk := {
  transport_member : string → bool;
  transport_member_onclose : transport_member "onclose" = true;
  transport_member_handleRequest : transport_member "handleRequest" = true;
  transport_member_close : transport_member "close" = true;
}.

Inductive property :=
  | Undefined
  | Inherited
  | Entry (t : nat).

(** A key the table does not own is found through the table's prototype
    chain: in [Object.prototype], which ends every chain, or, once a
    transport is the table's prototype, among the members of that
    transport. *)
Definition inherited `{Sdk} (table : gmap string nat) (k : string) : bool :=
  bool_decide (k ∈ object_prototype_keys)
  || match table !! "__proto__" with
     | Some _ => transport_member k
     | None => false
     end.

(** [transports[k]]: the transport of an entry, something truthy that is
    not a transport, or [undefined] (or a falsy member). *)
Definition js_get `{Sdk} (table : gmap string nat) (k : string) : property :=
  match table !! k with
  | Some t => Entry t
  | None => if inherited table k then Inherited else Undefined
  end.

Definition truthy_property (p : property) : bool :=
  match p with
  | Undefined => false
  | Inherited | Entry _ => true
  end.

(** A POST or GET on [/mcp]: the [mcp-session-id] header, and for a POST
    whether [isInitializeRequest(req.body)] holds. *)
Record request := {
  mcp_session_id : option string;
  is_initialize : bool;
}.

(** What a handler did with the request: handed it to the transport
    instance [t] ([transport.handleRequest]), answered 400, or answered
    500 from its [catch] block. *)
Inductive handled :=
  | HandleRequest (t : nat)
  | BadRequest
  | InternalServerError.

(** [sessionId ? transports[sessionId] : null] *)
Definition lookup_transport `{Sdk} (s : server) (sid : option string)
  : property :=
  match sid with
  | Some k => if truthy_string k then js_get (transports s) k else Undefined
  | None => Undefined
  end.

(** [sessionId || randomUUID()] *)
Definition newSessionId (sid : option string) (uuid : string) : string :=
  match sid with
  | Some k => if truthy_string k then k else uuid
  | None => uuid
  end.

(** [mcpPostHandler] (lines 260-311).  [uuid] is what [randomUUID()] would
    return.  The calls into the SDK ([server.connect],
    [transport.handleRequest]) are taken to return normally; calling
    [handleRequest] on something that is not a transport throws a
    [TypeError], which the [catch] block turns into the 500 envelope.
    The table is read and written before the first [await], so the choice
    of the transport is one step, whatever runs in between later.  The
    write of line 280 under [__proto__] sets the prototype slot. *)
Definition mcpPostHandler `{Sdk} (uuid : string) (req : request) (s : server)
  : server * handled :=
  let transport := lookup_transport s (mcp_session_id req) in
  if negb (truthy_property transport) || is_initialize req then
    let sid := newSessionId (mcp_session_id req) uuid in
    let t := length (created s) in
    ({| transports := <[sid := t]> (transports s);
        created := created s ++ [ {| sessionId := sid; closed := false |} ] |},
     HandleRequest t)
  else
    match transport with
    | Entry t => (s, HandleRequest t)
    | _ => (s, InternalServerError)
    end.

(** [app.get('/mcp', ...)] (lines 317-333) *)
Definition mcpGetHandler `{Sdk} (req : request) (s : server) : handled :=
  match lookup_transport s (mcp_session_id req) with
  | Undefined => BadRequest
  | Entry t => HandleRequest t
  | Inherited => InternalServerError
  end.

(** [delete transports[k]]: nothing happens for [__proto__]. *)
Definition js_delete (k : string) (table : gmap string nat)
  : gmap string nat :=
  if String.eqb k "__proto__" then table else delete k table.

(** [transport.onclose] of instance [t] (lines 283-286): it deletes the
    table entry of the session identifier the instance was created for. *)
Definition onclose (t : nat) (s : server) : server :=
  match created s !! t with
  | Some tr =>
      {| transports := js_delete (sessionId tr) (transports s);
         created := <[t := {| sessionId := sessionId tr; closed := true |}]>
                      (created s) |}
  | None => s
  end.

(** A transport is live when it has been created and has not closed. *)
Definition live (s : server) (t : nat) : Prop :=
  ∃ tr, created s !! t = Some tr ∧ closed tr = false.

(** What happens to the server between two states. *)
Inductive event :=
  | Post (uuid : string) (req : request)
  | Get (req : request)
  | Close (t : nat).

Definition step `{Sdk} (e : event) (s : server) : server :=
  match e with
  | Post uuid req => (mcpPostHandler uuid req s).1
  | Get _ => s
  | Close t => onclose t s
  end.

Inductive reachable `{Sdk} : server → Prop :=
  | reachable_initial : reachable initial_server
  | reachable_step e s : reachable s → reachable (step e s).

Definition run `{Sdk} (es : list event) (s : server) : server :=
  foldl (λ s e, step e s) s es.

(** The key an event writes in the table, if any: a POST that creates a
    transport writes the identifier it creates it for, and the closing of
    a transport deletes the identifier it was created for. *)
Definition writes_key `{Sdk} (e : event) (s : server) : option string :=
  match e with
  | Post uuid req =>
      if negb (truthy_property (lookup_transport s (mcp_session_id req)))
         || is_initialize req
      then Some (newSessionId (mcp_session_id req) uuid)
      else None
  | Get _ => None
  | Close t =>
      match created s !! t with
      | Some tr =>
          if String.eqb (sessionId tr) "__proto__" then None
          else Some (sessionId tr)
      | None => None
      end
  end.

(** No event of the run from [s] creates a transport under [sid] or closes
    one created under it. *)
Fixpoint undisturbed `{Sdk} (sid : string) (es : list event) (s : server)
  : Prop :=
  match es with
  | [] => True
  | e :: es' => writes_key e s ≠ Some sid ∧ undisturbed sid es' (step e s)
  end.

(** The [SIGINT] handler (lines 349-363), with no request arriving while
    it runs.  [keys] is the order in which [for (const sessionId in
    transports)] visits keys; a key the table does not hold when its turn
    comes (one deleted before, or one the loop finds in the prototype
    chain) changes nothing: there is no transport to close and the
    [catch] block logs the error.  [transport.close()] runs the
    transport's [onclose] and is taken to return normally; then the
    handler deletes the key.  The loop never visits [__proto__], which is
    not enumerable. *)
Definition shutdown_one (sessionId : string) (s : server) : server :=
  match transports s !! sessionId with
  | Some t =>
      let s' := onclose t s in
      {| transports := js_delete sessionId (transports s');
         created := created s' |}
  | None => s
  end.

Definition shutdown (keys : list string) (s : server) : server :=
  foldl (λ s sessionId, shutdown_one sessionId s) s keys.

(** An SDK whose transports have the members the source shows, and
    [sessionId], and no other. *)
Definition example_sdk : Sdk :=
  {| transport_member k :=
       bool_decide (k ∈ ["sessionId"; "onclose"; "handleRequest"; "close"]);
     transport_member_onclose := eq_refl;
     transport_member_handleRequest := eq_refl;
     transport_member_close := eq_refl |}.

(** ** Provider data

    The objects of the provider's JSON, with the fields the code reads.
    A field the code tests before it uses it is optional here; a field it
    uses without a test is always there. *)

Record outcome := {
  name : string;
  description : option string;
  price : Q;
  point : option Q;
}.

Record market := {
  key : string;
  outcomes : list outcome;
}.

Record bookmaker := {
  bookmaker_key : string;
  title : string;
  bookmaker_markets : option (list market);
}.

(** A game of the odds endpoint, an event of the events endpoint, and the
    answer of the per-event odds endpoint are the same kind of object; an
    event of the events list comes without [bookmakers]. *)
Record game := {
  id : string;
  home_team : string;
  away_team : string;
  commence_time : string;
  bookmakers : option (list bookmaker);
}.

(** ** The network

    [fetch(url)] resolves to a response or rejects; [response.json()]
    resolves to the parsed body or rejects.  The bodies modelled are the
    two the provider documents: an array of game objects and one game
    object, each object with the fields listed above.  Other JSON values
    (null, a string, a number, a boolean, an array with an element that
    is not such an object) have no counterpart here: the statements below
    speak of answers of the modelled shape and are silent about the
    others.  [ok] is the Fetch API's: the status is in 200-299. *)

Inductive json :=
  | JsonArray (games : list game)
  | JsonObject (g : game).

Record response := {
  status : nat;
  statusText : string;
  body : completion json;
}.

Definition ok (r : response) : bool :=
  (200 <=? status r)%nat && (status r <=? 299)%nat.

(** The provider as one invocation sees it: what the [n]-th [fetch] of
    the invocation gets for the URL it asks. *)
Definition network := nat → string → completion response.

(** A computation that may call [fetch] and may throw: it takes the URLs
    fetched so far and returns them extended. *)
Definition Fetching (A : Type) : Type :=
  list string → completion A * list string.

Definition ret {A} (a : A) : Fetching A := λ calls, (Normal a, calls).

Definition throw {A} (message : string) : Fetching A :=
  λ calls, (Throw message, calls).

Definition bind {A B} (m : Fetching A) (k : A → Fetching B) : Fetching B :=
  λ calls,
    match m calls with
    | (Normal a, calls') => k a calls'
    | (Throw message, calls') => (Throw message, calls')
    end.

Definition try_catch {A} (m : Fetching A) (handler : string → Fetching A)
  : Fetching A :=
  λ calls,
    match m calls with
    | (Normal a, calls') => (Normal a, calls')
    | (Throw message, calls') => handler message calls'
    end.

Definition lift {A} (c : completion A) : Fetching A := λ calls, (c, calls).

Notation "'await' x := m 'in' k" := (bind m (λ x, k))
  (at level 10, x name, m at level 100, k at level 200).

Definition fetch (net : network) (url : string) : Fetching response :=
  λ calls, (net (length calls) url, calls ++ [url]).

(** [array.forEach((x, i) => ...)] updating the local [result], for a
    callback that cannot throw and for one that can. *)
Fixpoint forEach_from {A} (f : string → nat → A → string)
    (i : nat) (l : list A) (result : string) : string :=
  match l with
  | [] => result
  | x :: l' => forEach_from f (S i) l' (f result i x)
  end.

Definition forEach {A} (f : string → nat → A → string) :=
  forEach_from f 0.

Fixpoint forEach_throwing_from {A} (f : string → nat → A → completion string)
    (i : nat) (l : list A) (result : string) : completion string :=
  match l with
  | [] => Normal result
  | x :: l' =>
      match f result i x with
      | Normal result' => forEach_throwing_from f (S i) l' result'
      | Throw message => Throw message
      end
  end.

Definition forEach_throwing {A} (f : string → nat → A → completion string) :=
  forEach_throwing_from f 0.

(** ** Tool calls

    The arguments object of a tool call, before and after the input
    schema.  A tool returns a text content or throws. *)

Record tool_arguments := {
  sport : string;
  markets : option (list string);
  regions : option string;
  team_filter : option string;
}.

Inductive tool_result :=
  | Content (text : string)
  | ToolError (message : string).

(** [.optional().default(d)] of the schema library: an absent value parses
    to [d]. *)
Definition optional_default {A} (d : A) (o : option A) : option A :=
  Some (default d o).

Definition apiKey : string := "e2589acbc9f5ed09664e15a3fd90682d".
Definition baseUrl : string := "https://api.the-odds-api.com/v4".

Definition newline : string := String (ascii_of_nat 10) "".
Definition quote : string := String (ascii_of_nat 34) "".

(** *** fetch_sports_odds (lines 45-129) *)

Definition odds_sports : list string :=
  [ "baseball_mlb"; "basketball_nba"; "basketball_wnba"; "basketball_wnba";
    "americanfootball_nfl"; "icehockey_nhl"; "soccer_epl" ].

(** The [inputSchema]: [None] when the arguments are rejected. *)
Definition odds_inputSchema (a : tool_arguments) : option tool_arguments :=
  if bool_decide (sport a ∈ odds_sports) then
    Some {| sport := sport a;
            markets := optional_default ["h2h"] (markets a);
            regions := optional_default "us" (regions a);
            team_filter := None |}
  else None.

Definition odds_url (sport : string) (markets : list string) (regions : string)
  : string :=
  baseUrl +:+ "/sports/" +:+ sport +:+ "/odds/?apiKey=" +:+ apiKey
  +:+ "&regions=" +:+ regions +:+ "&markets=" +:+ join "," markets
  +:+ "&oddsFormat=decimal&dateFormat=iso".

Section Tools.
Context `{Engine}.

(** Lines 106-110. *)
Definition odds_outcome (result : string) (i : nat) (o : outcome) : string :=
  let result := if (0 <? i)%nat then result +:+ ", " else result in
  let result :=
    result +:+ name o +:+ " (" +:+ number_to_string (price o) +:+ ")" in
  match point o with
  | Some p =>
      if truthy_number p then result +:+ " " +:+ number_to_string p else result
  | None => result
  end.

(** Lines 104-112. *)
Definition odds_market (result : string) (_ : nat) (m : market) : string :=
  let result := result +:+ "     " +:+ key m +:+ ": " in
  let result := forEach odds_outcome (outcomes m) result in
  result +:+ newline.

(** Lines 102-113; [bookmaker.markets.forEach] throws a [TypeError] when
    the bookmaker has no [markets]. *)
Definition odds_bookmaker (result : string) (_ : nat) (b : bookmaker)
  : completion string :=
  let result := result +:+ "   " +:+ title b +:+ ":" +:+ newline in
  match bookmaker_markets b with
  | Some ms => Normal (forEach odds_market ms result)
  | None => Throw "Cannot read properties of undefined (reading 'forEach')"
  end.

(** Lines 97-116. *)
Definition odds_game (result : string) (index : nat) (g : game)
  : completion string :=
  let result :=
    result +:+ pretty (index + 1)%nat +:+ ". " +:+ away_team g +:+ " @ "
    +:+ home_team g +:+ newline in
  let result :=
    result +:+ "   Starts: " +:+ date_toLocaleString (commence_time g)
    +:+ newline in
  match
    match bookmakers g with
    | Some (b :: bs) => forEach_throwing odds_bookmaker (b :: bs) result
    | _ => Normal result
    end
  with
  | Normal result => Normal (result +:+ newline)
  | Throw message => Throw message
  end.

(** The body of the [try] block (lines 62-124); the destructuring
    defaults of line 60 fill [markets] and [regions]. *)
Definition fetch_sports_odds_try (net : network) (now : string)
    (a : tool_arguments) : Fetching string :=
  let sport := sport a in
  let markets := default ["h2h"] (markets a) in
  let regions := default "us" (regions a) in
  let url := odds_url sport markets regions in
  await response := fetch net url in
  if negb (ok response) then
    throw ("API call failed: " +:+ pretty (status response) +:+ " "
           +:+ statusText response)
  else
    await data := lift (body response) in
    match data with
    | JsonObject _ => throw "Invalid API response: expected array of games"
    | JsonArray data =>
        let result := "Sports Odds Report - " +:+ toUpperCase sport +:+ newline in
        let result := result +:+ "Generated: " +:+ now +:+ newline in
        let result := result +:+ "Markets: " +:+ join ", " markets +:+ newline in
        let result :=
          result +:+ "Regions: " +:+ regions +:+ newline +:+ newline in
        match data with
        | [] => ret (result +:+ "No games found for this sport." +:+ newline)
        | _ =>
            let result :=
              result +:+ "Found " +:+ pretty (length data) +:+ " games:"
              +:+ newline +:+ newline in
            lift (forEach_throwing odds_game data result)
        end
    end.

(** The tool callback: the [catch] block rethrows with a prefix. *)
Definition fetch_sports_odds (net : network) (now : string)
    (a : tool_arguments) (calls : list string) : tool_result * list string :=
  match fetch_sports_odds_try net now a calls with
  | (Normal result, calls') => (Content result, calls')
  | (Throw message, calls') =>
      (ToolError ("Failed to execute fetch_sports_odds: " +:+ message), calls')
  end.

(** *** fetch_player_props (lines 131-254) *)

Definition props_sports : list string := [ "baseball_mlb"; "basketball_wnba" ].

(** The [inputSchema] (lines 135-139). *)
Definition props_inputSchema (a : tool_arguments) : option tool_arguments :=
  if bool_decide (sport a ∈ props_sports) then
    Some {| sport := sport a;
            markets :=
              optional_default ["batter_home_runs"; "pitcher_strikeouts"]
                (markets a);
            regions := None;
            team_filter := team_filter a |}
  else None.

(** Lines 141-144: the markets the callback works with.  An array is
    truthy, also the empty one. *)
Definition resolve_markets (a : tool_arguments) : list string :=
  match markets a with
  | Some markets => markets
  | None =>
      if String.eqb (sport a) "basketball_wnba"
      then ["player_points"; "player_rebounds"; "player_assists"]
      else ["batter_home_runs"; "pitcher_strikeouts"]
  end.

Definition events_url (sport : string) : string :=
  baseUrl +:+ "/sports/" +:+ sport +:+ "/events?apiKey=" +:+ apiKey.

Definition propsUrl (sport : string) (markets : list string) (event : game)
  : string :=
  baseUrl +:+ "/sports/" +:+ sport +:+ "/events/" +:+ id event
  +:+ "/odds?apiKey=" +:+ apiKey +:+ "&regions=us&markets="
  +:+ join "," markets +:+ "&bookmakers=draftkings".

(** The predicate of [events.filter] (lines 168-171). *)
Definition team_matches (team_filter : string) (event : game) : bool :=
  includes (toLowerCase (home_team event)) (toLowerCase team_filter)
  || includes (toLowerCase (away_team event)) (toLowerCase team_filter).

(** Lines 166-173. *)
Definition filterEvents (team_filter : option string) (events : list game)
  : list game :=
  match team_filter with
  | Some f => if truthy_string f then List.filter (team_matches f) events
              else events
  | None => events
  end.

(** [events.slice(0, 3)] *)
Definition gamesToProcess (filteredEvents : list game) : list game :=
  take 3 filteredEvents.

Definition event_heading (event : game) : string :=
  "--- " +:+ away_team event +:+ " @ " +:+ home_team event +:+ " ---"
  +:+ newline.

(** Lines 220-226. *)
Definition props_outcome (result : string) (_ : nat) (o : outcome) : string :=
  let playerName :=
    match description o with
    | Some d => if truthy_string d then d else name o
    | None => name o
    end in
  let betType := name o in
  let point :=
    match point o with
    | Some p => if truthy_number p then " " +:+ number_to_string p else ""
    | None => ""
    end in
  let odds := number_to_string (price o) in
  result +:+ "  " +:+ playerName +:+ ": " +:+ betType +:+ point +:+ " ("
  +:+ odds +:+ ")" +:+ newline.

(** Lines 218-227. *)
Definition props_market (result : string) (_ : nat) (m : market) : string :=
  let result :=
    result +:+ newline +:+ toUpperCase (replace_underscores (key m)) +:+ ":"
    +:+ newline in
  forEach props_outcome (outcomes m) result.

(** [propsData.bookmakers]: an array has no such field. *)
Definition propsData_bookmakers (propsData : json) : option (list bookmaker) :=
  match propsData with
  | JsonObject g => bookmakers g
  | JsonArray _ => None
  end.

(** The callback of [find] (line 216). *)
Definition is_draftkings (b : bookmaker) : bool :=
  String.eqb (bookmaker_key b) "draftkings".

(** Lines 212-234: the block of an event whose odds were fetched. *)
Definition props_event (result : string) (event : game) (propsData : json)
  : string :=
  let result := result +:+ event_heading event in
  let result :=
    result +:+ "Starts: " +:+ date_toLocaleString (commence_time event)
    +:+ newline in
  let result :=
    match propsData_bookmakers propsData with
    | Some (b :: bs) =>
        let draftkings :=
          List.find is_draftkings (b :: bs) in
        match draftkings with
        | Some {| bookmaker_markets := Some (m :: ms) |} =>
            forEach props_market (m :: ms) result
        | _ =>
            result +:+ "No DraftKings props available for this game" +:+ newline
        end
    | _ => result +:+ "No bookmaker data available for this game" +:+ newline
    end in
  result +:+ newline.

(** The body of the [for] loop (lines 196-240).  Inside the inner [try]
    only [fetch] and [json()] can throw, and both come before the first
    append to [result]; so the [catch] block appends to the [result] the
    iteration started with. *)
Definition process_event (net : network) (sport : string)
    (markets : list string) (result : string) (event : game)
  : Fetching string :=
  try_catch
    (await propsResponse := fetch net (propsUrl sport markets event) in
     if negb (ok propsResponse) then
       ret (result +:+ event_heading event
            +:+ "Error: Unable to fetch props ("
            +:+ pretty (status propsResponse) +:+ ")" +:+ newline +:+ newline)
     else
       await propsData := lift (body propsResponse) in
       ret (props_event result event propsData))
    (λ message,
       ret (result +:+ event_heading event +:+ "Error: " +:+ message
            +:+ newline +:+ newline)).

(** [for (const event of events) ...] updating [result]. *)
Fixpoint for_of (f : string → game → Fetching string) (events : list game)
    (result : string) : Fetching string :=
  match events with
  | [] => ret result
  | event :: rest =>
      await result := f result event in
      for_of f rest result
  end.

(** Lines 176-180. *)
Definition props_header (now : string) (sport : string)
    (markets : list string) (team_filter : option string) : string :=
  let result := "Player Props Report - " +:+ toUpperCase sport +:+ newline in
  let result := result +:+ "Generated: " +:+ now +:+ newline in
  let result := result +:+ "Markets: " +:+ join ", " markets +:+ newline in
  let result :=
    match team_filter with
    | Some f =>
        if truthy_string f then result +:+ "Team Filter: " +:+ f +:+ newline
        else result
    | None => result
    end in
  result +:+ newline.

(** Lines 183-185. *)
Definition no_games_found (team_filter : option string) : string :=
  match team_filter with
  | Some f =>
      if truthy_string f
      then "No games found for team " +:+ quote +:+ f +:+ quote +:+ " today."
           +:+ newline
      else "No games found for this sport today." +:+ newline
  | None => "No games found for this sport today." +:+ newline
  end.

(** The body of the outer [try] block (lines 146-248).  When the events
    body is an object instead of an array, [events.filter] or
    [filteredEvents.slice] is not a function. *)
Definition fetch_player_props_try (net : network) (now : string)
    (a : tool_arguments) : Fetching string :=
  let sport := sport a in
  let markets := resolve_markets a in
  let team_filter := team_filter a in
  await eventsResponse := fetch net (events_url sport) in
  if negb (ok eventsResponse) then
    throw ("Events API call failed: " +:+ pretty (status eventsResponse))
  else
    await events := lift (body eventsResponse) in
    match events with
    | JsonObject _ =>
        if truthy_opt_string team_filter
        then throw "events.filter is not a function"
        else throw "filteredEvents.slice is not a function"
    | JsonArray events =>
        let filteredEvents := filterEvents team_filter events in
        let result := props_header now sport markets team_filter in
        match filteredEvents with
        | [] => ret (result +:+ no_games_found team_filter)
        | _ =>
            let gamesToProcess := gamesToProcess filteredEvents in
            let result :=
              result +:+ "Processing " +:+ pretty (length gamesToProcess)
              +:+ " games:" +:+ newline +:+ newline in
            for_of (process_event net sport markets) gamesToProcess result
        end
    end.

(** The tool callback. *)
Definition fetch_player_props (net : network) (now : string)
    (a : tool_arguments) (calls : list string) : tool_result * list string :=
  match fetch_player_props_try net now a calls with
  | (Normal result, calls') => (Content result, calls')
  | (Throw message, calls') =>
      (ToolError ("Failed to fetch player props: " +:+ message), calls')
  end.

(** A [tools/call] request: the SDK parses the arguments with the tool's
    [inputSchema] and hands the parsed object to the callback; [None] when
    the schema rejects them. *)
Definition call_fetch_sports_odds (net : network) (now : string)
    (a : tool_arguments) : option (tool_result * list string) :=
  a' ← odds_inputSchema a; Some (fetch_sports_odds net now a' []).

Definition call_fetch_player_props (net : network) (now : string)
    (a : tool_arguments) : option (tool_result * list string) :=
  a' ← props_inputSchema a; Some (fetch_player_props net now a' []).

End Tools.

(** ** Startup (lines 10-11 and 335-346)

    The process environment is a table of strings.  [app.listen] either
    binds the port or emits ['error'], which is logged. *)

Inductive port_value :=
  | PortFromEnv (p : string)
  | PortDefault (n : N).

(** [process.env.PORT || 10000] *)
Definition port (env : gmap string string) : port_value :=
  match env !! "PORT" with
  | Some p => if truthy_string p then PortFromEnv p else PortDefault 10000%N
  | None => PortDefault 10000%N
  end.

Inductive startup_outcome :=
  | Listening (p : port_value)
  | ListenErrorLogged (p : port_value) (code : string).

Definition startup (env : gmap string string) (listen_error : option string)
  : startup_outcome :=
  match listen_error with
  | None => Listening (port env)
  | Some code => ListenErrorLogged (port env) code
  end.

(** A small engine to run examples with: integers print in decimal, other
    numbers as a fraction, timestamps as they are, and the case mappings
    are the ASCII ones. *)
Definition example_number_to_string (q : Q) : string :=
  if (Zpos (Qden q) =? 1)%Z then pretty (Qnum q)
  else pretty (Qnum q) +:+ "/" +:+ pretty (Zpos (Qden q)).

Definition example_engine : Engine :=
  {| number_to_string := example_number_to_string;
     date_toLocaleString := λ t, t;
     toLowerCase := ascii_toLowerCase;
     toUpperCase := ascii_toUpperCase;
     toLowerCase_empty := eq_refl |}.

(** A POST is answered with a session-not-found error when the handler
    leaves the server as it was and hands the request to no transport. *)
Definition session_not_found `{Sdk} (uuid : string) (req : request)
    (s : server) : Prop :=
  (mcpPostHandler uuid req s).1 = s
  ∧ ∀ t, (mcpPostHandler uuid req s).2 ≠ HandleRequest t.

(** Every entry of the table names a transport that was created for the
    entry's key and, unless the key is [__proto__], has not closed. *)
Definition table_ok (s : server) : Prop :=
  ∀ sid t, transports s !! sid = Some t →
    ∃ tr, created s !! t = Some tr ∧ sessionId tr = sid
          ∧ (sid ≠ "__proto__" → closed tr = false).

(** ** Notions used in the statements *)

(** [line] appears in [text]. *)
Definition contains (text line : string) : Prop :=
  ∃ pre post, text = pre +:+ line +:+ post.


Definition concat_blocks (blocks : list string) : string :=
  foldr String.append "" blocks.

(** The two inline error blocks of the props report. *)
Definition error_block (event : game) (message : string) : string :=
  event_heading event +:+ "Error: " +:+ message +:+ newline +:+ newline.

Definition unavailable_block (event : game) (status : nat) : string :=
  event_heading event +:+ "Error: Unable to fetch props (" +:+ pretty status
  +:+ ")" +:+ newline +:+ newline.

(** The block of one event, from the answer to the fetch made for it,
    which is the [n]-th of the invocation. *)
Definition event_block `{Engine} (net : network) (sport : string)
    (markets : list string) (n : nat) (event : game) : string :=
  match net n (propsUrl sport markets event) with
  | Throw message => error_block event message
  | Normal propsResponse =>
      if ok propsResponse then
        match body propsResponse with
        | Normal propsData => props_event "" event propsData
        | Throw message => error_block event message
        end
      else unavailable_block event (status propsResponse)
  end.

(** The blocks of the events of one invocation, the fetch for the first
    of them being the [first]-th. *)
Definition event_blocks `{Engine} (net : network) (sport : string)
    (markets : list string) (first : nat) (events : list game) : list string :=
  imap (λ i event, event_block net sport markets (first + i) event) events.

(** A callback is appending when it only adds text after the [result] it
    is given. *)
Definition appending {A} (f : string → nat → A → string) : Prop :=
  ∀ result i x, f result i x = result +:+ f "" i x.

(** The events call of an invocation that starts after [calls] was
    answered with a 2xx status and the array [events]. *)
Definition events_fetched (net : network) (calls : list string)
    (a : tool_arguments) (events : list game) : Prop :=
  ∃ r, net (length calls) (events_url (sport a)) = Normal r
       ∧ ok r = true ∧ body r = Normal (JsonArray events).

(** The events an invocation goes on to process. *)
Definition processed `{Engine} (a : tool_arguments) (events : list game)
  : list game :=
  gamesToProcess (filterEvents (team_filter a) events).

(** The report of an invocation that processes [games], up to the blocks. *)
Definition props_preamble `{Engine} (now : string) (a : tool_arguments)
    (games : list game) : string :=
  props_header now (sport a) (resolve_markets a) (team_filter a)
  +:+ "Processing " +:+ pretty (length games) +:+ " games:" +:+ newline
  +:+ newline.

(** The answer to a per-event odds call has no bookmaker section, or has
    bookmakers but no DraftKings entry with markets. *)
Definition no_bookmaker_data (propsData : json) : Prop :=
  propsData_bookmakers propsData = None
  ∨ propsData_bookmakers propsData = Some [].

Definition no_draftkings_props (propsData : json) : Prop :=
  ∃ b bs,
    propsData_bookmakers propsData = Some (b :: bs)
    ∧ match List.find is_draftkings (b :: bs) with
      | Some draftkings =>
          bookmaker_markets draftkings = None
          ∨ bookmaker_markets draftkings = Some []
      | None => True
      end.

(** The provider's data with every point that is zero taken out. *)
Definition without_zero_point (o : outcome) : outcome :=
  {| name := name o;
     description := description o;
     price := price o;
     point := match point o with
              | Some q => if truthy_number q then Some q else None
              | None => None
              end |}.

Definition market_without_zero_points (m : market) : market :=
  {| key := key m; outcomes := map without_zero_point (outcomes m) |}.

Definition bookmaker_without_zero_points (b : bookmaker) : bookmaker :=
  {| bookmaker_key := bookmaker_key b;
     title := title b;
     bookmaker_markets :=
       map market_without_zero_points <$> bookmaker_markets b |}.

Definition game_without_zero_points (g : game) : game :=
  {| id := id g;
     home_team := home_team g;
     away_team := away_team g;
     commence_time := commence_time g;
     bookmakers := map bookmaker_without_zero_points <$> bookmakers g |}.

Definition json_without_zero_points (d : json) : json :=
  match d with
  | JsonArray games => JsonArray (map game_without_zero_points games)
  | JsonObject g => JsonObject (game_without_zero_points g)
  end.

(** ** Notions used in the statements about the odds report *)

(** The URL of the odds call of an invocation. *)
Definition odds_request_url (a : tool_arguments) : string :=
  odds_url (sport a) (default ["h2h"] (markets a)) (default "us" (regions a)).

(** The odds call of an invocation that starts after [calls] was answered
    with a 2xx status and the array [data]. *)
Definition odds_fetched (net : network) (calls : list string)
    (a : tool_arguments) (data : list game) : Prop :=
  ∃ r, net (length calls) (odds_request_url a) = Normal r
       ∧ ok r = true ∧ body r = Normal (JsonArray data).

(** The four header lines of the odds report and the empty line after
    them. *)
Definition odds_header `{Engine} (now : string) (a : tool_arguments)
  : string :=
  "Sports Odds Report - " +:+ toUpperCase (sport a) +:+ newline
  +:+ "Generated: " +:+ now +:+ newline
  +:+ "Markets: " +:+ join ", " (default ["h2h"] (markets a)) +:+ newline
  +:+ "Regions: " +:+ default "us" (regions a) +:+ newline +:+ newline.

(** Every bookmaker of the game comes with [markets]. *)
Definition bookmakers_have_markets (g : game) : Prop :=
  ∀ bs, bookmakers g = Some bs →
        Forall (λ b, is_Some (bookmaker_markets b)) bs.

(** A callback that can throw is appending when, unless it throws, it
    only adds text after the [result] it is given. *)
Definition appending_throwing {A}
    (f : string → nat → A → completion string) : Prop :=
  ∀ result i x,
    f result i x
    = match f "" i x with
      | Normal block => Normal (result +:+ block)
      | Throw message => Throw message
      end.

(** The texts the callback adds for the elements of a list, the first of
    them at index [i]. *)
Fixpoint blocks_from {A} (f : string → nat → A → completion string)
    (i : nat) (l : list A) : completion (list string) :=
  match l with
  | [] => Normal []
  | x :: l' =>
      match f "" i x with
      | Normal block =>
          match blocks_from f (S i) l' with
          | Normal blocks => Normal (block :: blocks)
          | Throw message => Throw message
          end
      | Throw message => Throw message
      end
  end.

(** The first line of a game's block in the odds report. *)
Definition odds_game_heading (index : nat) (g : game) : string :=
  pretty (index + 1) +:+ ". " +:+ away_team g +:+ " @ " +:+ home_team g
  +:+ newline.

(** Two bookmakers for the odds examples, the second without [markets]. *)
Definition example_moneyline : market :=
  {| key := "h2h";
     outcomes :=
       [ {| name := "Boston Red Sox"; description := None;
            price := 2%Q; point := None |};
         {| name := "New York Yankees"; description := None;
            price := 3%Q; point := None |} ] |}.

Definition example_fanduel : bookmaker :=
  {| bookmaker_key := "fanduel"; title := "FanDuel";
     bookmaker_markets := Some [example_moneyline] |}.

Definition example_broken_bookmaker : bookmaker :=
  {| bookmaker_key := "betmgm"; title := "BetMGM";
     bookmaker_markets := None |}.

(** ** Data for the examples *)

Definition example_event (i home away : string) : game :=
  {| id := i; home_team := home; away_team := away;
     commence_time := "2025-07-01T23:05:00Z"; bookmakers := None |}.

Definition yankees_event : game :=
  example_event "e1" "New York Yankees" "Boston Red Sox".
Definition mets_event : game :=
  example_event "e2" "New York Mets" "Chicago Cubs".
Definition dodgers_event : game :=
  example_event "e3" "Los Angeles Dodgers" "San Diego Padres".
Definition astros_event : game :=
  example_event "e4" "Houston Astros" "Seattle Mariners".

Definition example_events : list game :=
  [ yankees_event; mets_event; dodgers_event; astros_event ].

Definition example_home_runs : market :=
  {| key := "batter_home_runs";
     outcomes :=
       [ {| name := "Over"; description := Some "Aaron Judge";
            price := 3%Q; point := Some 1%Q |};
         {| name := "Under"; description := Some "Aaron Judge";
            price := 2%Q; point := Some 0%Q |} ] |}.

Definition example_draftkings : bookmaker :=
  {| bookmaker_key := "draftkings"; title := "DraftKings";
     bookmaker_markets := Some [example_home_runs] |}.

Definition example_odds (e : game) (bs : option (list bookmaker)) : game :=
  {| id := id e; home_team := home_team e; away_team := away_team e;
     commence_time := commence_time e; bookmakers := bs |}.

Definition ok_response (d : json) : completion response :=
  Normal {| status := 200; statusText := "OK"; body := Normal d |}.

Definition not_found : response :=
  {| status := 404; statusText := "Not Found";
     body := Throw "Unexpected end of JSON input" |}.

(** The events call brings four events; the odds of the first come with a
    DraftKings market, the call for the second is answered 404, the call
    for the third fails. *)
Definition example_network : network :=
  λ n _,
    match n with
    | 0 => ok_response (JsonArray example_events)
    | 1 => ok_response
             (JsonObject (example_odds yankees_event
                            (Some [example_draftkings])))
    | 2 => Normal not_found
    | _ => Throw "fetch failed"
    end.

(** The events call brings one event, and its odds come without
    bookmakers. *)
Definition example_network_no_bookmakers : network :=
  λ n _,
    match n with
    | 0 => ok_response (JsonArray (take 1 example_events))
    | _ => ok_response
             (JsonObject (example_odds yankees_event (Some [])))
    end.

(** The events call brings one event, and the call for its odds is
    answered 404. *)
Definition example_network_404 : network :=
  λ n _,
    match n with
    | 0 => ok_response (JsonArray (take 1 example_events))
    | _ => Normal not_found
    end.

Definition example_now : string := "7/1/2025, 9:00:00 AM".

Definition example_arguments (sport : string) (team_filter : option string)
  : tool_arguments :=
  {| sport := sport; markets := None; regions := None;
     team_filter := team_filter |}.

(** The odds call brings two games, the first with one bookmaker; brings
    one game with a bookmaker that lacks [markets]; brings no game. *)
Definition example_odds_games : list game :=
  [ example_odds yankees_event (Some [example_fanduel]); mets_event ].

Definition example_odds_network : network :=
  λ _ _, ok_response (JsonArray example_odds_games).

Definition example_broken_games : list game :=
  [ mets_event;
    example_odds yankees_event
      (Some [example_fanduel; example_broken_bookmaker]) ].

Definition example_odds_network_broken : network :=
  λ _ _, ok_response (JsonArray example_broken_games).

Definition example_odds_network_empty : network :=
  λ _ _, ok_response (JsonArray []).

(** ** The text of one outcome *)

(** The point of an outcome as both renderers print it: a space and the
    number, or nothing when there is no point or the point is zero. *)
Definition point_text `{Engine} (o : outcome) : string :=
  match point o with
  | Some p => if truthy_number p then " " +:+ number_to_string p else ""
  | None => ""
  end.

(** An outcome in a market line of the odds report. *)
Definition odds_outcome_text `{Engine} (o : outcome) : string :=
  name o +:+ " (" +:+ number_to_string (price o) +:+ ")" +:+ point_text o.

(** The player of an outcome: its description, or its name when it has no
    description or an empty one. *)
Definition player_name (o : outcome) : string :=
  match description o with
  | Some d => if truthy_string d then d else name o
  | None => name o
  end.

(** The line of an outcome in a market section of the props report. *)
Definition props_outcome_line `{Engine} (o : outcome) : string :=
  "  " +:+ player_name o +:+ ": " +:+ name o +:+ point_text o +:+ " ("
  +:+ number_to_string (price o) +:+ ")" +:+ newline.

(** ** Notions used in the statements about the props report *)

(** A game with its bookmakers replaced. *)
Definition with_bookmakers (g : game) (bs : list bookmaker) : game :=
  {| id := id g; home_team := home_team g; away_team := away_team g;
     commence_time := commence_time g; bookmakers := Some bs |}.

(** The line of a market section in the props report. *)
Definition props_market_heading `{Engine} (m : market) : string :=
  newline +:+ toUpperCase (replace_underscores (key m)) +:+ ":" +:+ newline.

(** The events call fails at once. *)
Definition example_network_down : network := λ _ _, Throw "fetch failed".

(** * Part II: lemmas and theorems *)

(** ** Session table *)

Lemma js_delete_proto (table : gmap string nat) :
  js_delete "__proto__" table = table.
Proof. reflexivity. Qed.

Lemma js_delete_other k (table : gmap string nat) :
  k ≠ "__proto__" → js_delete k table = delete k table.
Proof.
  intros Hk. unfold js_delete. by destruct (String.eqb_spec k "__proto__").
Qed.

Lemma js_delete_subset k (table : gmap string nat) k' t :
  js_delete k table !! k' = Some t → table !! k' = Some t.
Proof.
  unfold js_delete. destruct (String.eqb k "__proto__"); [done|].
  rewrite lookup_delete. by case_decide.
Qed.

Lemma js_delete_ne k (table : gmap string nat) k' :
  k ≠ k' → js_delete k table !! k' = table !! k'.
Proof.
  intros Hk. unfold js_delete. destruct (String.eqb k "__proto__"); [done|].
  by rewrite lookup_delete_ne.
Qed.

Lemma prototype_key_truthy sid :
  sid ∈ object_prototype_keys → truthy_string sid = true.
Proof.
  unfold object_prototype_keys. set_unfold.
  intros [->|[->|[->|[->|[->|[->|[->|[->|[->|[->|[->|[->|[]]]]]]]]]]]]];
    reflexivity.
Qed.

Lemma length_created_onclose t s :
  length (created (onclose t s)) = length (created s).
Proof.
  unfold onclose. destruct (created s !! t); [|done].
  simpl. by rewrite length_insert.
Qed.

Section SessionFacts.
Context `{Sdk}.

Lemma lookup_transport_entry s sid t :
  sid ≠ "" → transports s !! sid = Some t →
  lookup_transport s (Some sid) = Entry t.
Proof.
  intros Hne Hl. unfold lookup_transport, truthy_string.
  destruct (String.eqb_spec sid "") as [->|_]; [done|].
  simpl. unfold js_get. by rewrite Hl.
Qed.

Lemma lookup_transport_unowned s sid :
  sid ≠ "" → transports s !! sid = None →
  lookup_transport s (Some sid)
  = if inherited (transports s) sid then Inherited else Undefined.
Proof.
  intros Hne Hl. unfold lookup_transport, truthy_string.
  destruct (String.eqb_spec sid "") as [->|_]; [done|].
  simpl. unfold js_get. by rewrite Hl.
Qed.

Lemma inherited_prototype_key table sid :
  sid ∈ object_prototype_keys → inherited table sid = true.
Proof. intros Hk. unfold inherited. by rewrite bool_decide_eq_true_2. Qed.

Lemma newSessionId_header sid uuid :
  sid ≠ "" → newSessionId (Some sid) uuid = sid.
Proof.
  intros Hne. unfold newSessionId, truthy_string.
  by destruct (String.eqb_spec sid "").
Qed.

(** A request for a known session that does not initialize goes to the
    table's transport and changes nothing. *)
Lemma post_known_session uuid req s sid t :
  mcp_session_id req = Some sid → sid ≠ "" →
  transports s !! sid = Some t → is_initialize req = false →
  mcpPostHandler uuid req s = (s, HandleRequest t).
Proof.
  intros Hsid Hne Hl Hinit. unfold mcpPostHandler.
  rewrite Hsid, (lookup_transport_entry _ _ _ Hne Hl), Hinit. done.
Qed.

(** An initialization request always gets a new transport. *)
Lemma post_initialize uuid req s :
  is_initialize req = true →
  mcpPostHandler uuid req s =
    ({| transports :=
          <[newSessionId (mcp_session_id req) uuid := length (created s)]>
            (transports s);
        created :=
          created s ++ [ {| sessionId := newSessionId (mcp_session_id req) uuid;
                            closed := false |} ] |},
     HandleRequest (length (created s))).
Proof.
  intros Hinit. unfold mcpPostHandler. rewrite Hinit, orb_true_r. done.
Qed.

(** A header naming a member of [Object.prototype] that the table does not
    own is answered with the 500 envelope. *)
Lemma post_inherited_key uuid req s sid :
  mcp_session_id req = Some sid → transports s !! sid = None →
  sid ∈ object_prototype_keys → is_initialize req = false →
  mcpPostHandler uuid req s = (s, InternalServerError).
Proof.
  intros Hsid Hl Hk Hinit. unfold mcpPostHandler, lookup_transport.
  rewrite Hsid, Hinit, (prototype_key_truthy _ Hk).
  unfold js_get. by rewrite Hl, inherited_prototype_key.
Qed.

Lemma mcpPostHandler_table_ok uuid req s :
  table_ok s → table_ok (mcpPostHandler uuid req s).1.
Proof.
  intros Hok. unfold mcpPostHandler.
  destruct (negb _ || _); [|by destruct (lookup_transport _ _)].
  intros sid t. simpl. rewrite lookup_insert.
  case_decide as Hsid.
  - intros [= <-]. eexists. rewrite lookup_app_r, Nat.sub_diag by done.
    by split_and!.
  - intros (tr & Htr & ? & ?)%Hok. exists tr.
    by rewrite (lookup_app_l_Some _ _ _ _ Htr).
Qed.

Lemma onclose_table_ok t s : table_ok s → table_ok (onclose t s).
Proof.
  intros Hok. unfold onclose.
  destruct (created s !! t) as [tr0|] eqn:Ht; [|done].
  intros sid t'. simpl. intros Hl.
  pose proof (js_delete_subset _ _ _ _ Hl) as Hl0.
  destruct (Hok sid t' Hl0) as (tr & Htr & Hs & Hc).
  destruct (decide (t' = t)) as [->|Hne].
  - assert (tr = tr0) as -> by congruence.
    eexists. rewrite list_lookup_insert_eq by by eapply lookup_lt_Some.
    split_and!; [done..|]. intros Hsid. exfalso.
    rewrite js_delete_other, Hs, lookup_delete_eq in Hl by congruence. done.
  - exists tr. by rewrite list_lookup_insert_ne.
Qed.

Lemma step_table_ok e s : table_ok s → table_ok (step e s).
Proof.
  destruct e; simpl; auto using mcpPostHandler_table_ok, onclose_table_ok.
Qed.

Lemma reachable_table_ok s : reachable s → table_ok s.
Proof.
  induction 1 as [|e s _ IH]; [|by apply step_table_ok].
  intros sid t. unfold initial_server. simpl. by rewrite lookup_empty.
Qed.

(** After a POST that bears an identifier and is handed to a transport,
    that transport is the identifier's entry. *)
Lemma post_entry_after uuid req s sid t :
  mcp_session_id req = Some sid → sid ≠ "" →
  (mcpPostHandler uuid req s).2 = HandleRequest t →
  transports (mcpPostHandler uuid req s).1 !! sid = Some t.
Proof.
  intros Hsid Hne. unfold mcpPostHandler.
  destruct (negb _ || _) eqn:Hnew.
  - simpl. intros [= <-]. rewrite Hsid, newSessionId_header by done.
    apply lookup_insert_eq.
  - rewrite Hsid in *. unfold lookup_transport in *.
    destruct (truthy_string sid); [|done].
    unfold js_get in *. destruct (transports s !! sid) as [t'|] eqn:Hl.
    + simpl. by intros [= <-].
    + by destruct (inherited _ _).
Qed.

Lemma step_preserves_entry e s sid :
  writes_key e s ≠ Some sid →
  transports (step e s) !! sid = transports s !! sid.
Proof.
  destruct e as [uuid req| |t]; simpl; [|done|].
  - unfold mcpPostHandler. destruct (negb _ || _).
    + intros Hk. simpl. rewrite lookup_insert_ne; [done|congruence].
    + by destruct (lookup_transport _ _).
  - unfold onclose. destruct (created s !! t) as [tr|]; [|done]. simpl.
    unfold js_delete. destruct (String.eqb (sessionId tr) "__proto__"); [done|].
    intros Hk. rewrite lookup_delete_ne; [done|congruence].
Qed.

Lemma run_cons e es s : run (e :: es) s = run es (step e s).
Proof. reflexivity. Qed.

Lemma run_preserves_entry es :
  ∀ s sid, undisturbed sid es s →
           transports (run es s) !! sid = transports s !! sid.
Proof.
  induction es as [|e es IH]; intros s sid; [done|].
  intros [He Hes]. by rewrite run_cons, (IH _ _ Hes), step_preserves_entry.
Qed.

Lemma reachable_run es : ∀ s, reachable s → reachable (run es s).
Proof.
  induction es as [|e es IH]; intros s Hs; [done|].
  rewrite run_cons. by apply IH, reachable_step.
Qed.

(** A GET for a session the table does not hold is answered 400. *)
Lemma get_unknown_session req s :
  lookup_transport s (mcp_session_id req) = Undefined →
  mcpGetHandler req s = BadRequest.
Proof. intros Hl. unfold mcpGetHandler. by rewrite Hl. Qed.

(** A GET for a session of the table goes to its transport. *)
Lemma get_known_session req s sid t :
  mcp_session_id req = Some sid → sid ≠ "" →
  transports s !! sid = Some t →
  mcpGetHandler req s = HandleRequest t.
Proof.
  intros Hsid Hne Hl. unfold mcpGetHandler.
  by rewrite Hsid, (lookup_transport_entry _ _ _ Hne Hl).
Qed.

(** Once a session has been initialized under [__proto__], the members of
    its transport are found under their names: a request that bears one
    and does not initialize gets the 500 answer. *)
Lemma transport_member_is_server_error uuid req s sid t :
  transports s !! "__proto__" = Some t →
  mcp_session_id req = Some sid → sid ≠ "" →
  transports s !! sid = None → transport_member sid = true →
  is_initialize req = false →
  mcpPostHandler uuid req s = (s, InternalServerError).
Proof.
  intros Hproto Hsid Hne Hl Hm Hinit. unfold mcpPostHandler.
  rewrite Hsid, (lookup_transport_unowned _ _ Hne Hl), Hinit.
  unfold inherited. by rewrite Hproto, Hm, orb_true_r.
Qed.

(** Claim C1, as the code has it: a POST that carries a non-empty session
    identifier under which the table's lookup finds nothing (no entry of
    the table, and nothing inherited through the table's prototype
    chain), with a body that is not an initialization message, is not
    rejected: the handler creates a new transport, enters it in the table
    under that identifier and hands the request to it. *)
Theorem post_unknown_session uuid req s sid :
  mcp_session_id req = Some sid → sid ≠ "" →
  transports s !! sid = None → inherited (transports s) sid = false →
  is_initialize req = false →
  mcpPostHandler uuid req s =
    ({| transports := <[sid := length (created s)]> (transports s);
        created := created s ++ [ {| sessionId := sid; closed := false |} ] |},
     HandleRequest (length (created s))).
Proof.
  intros Hsid Hne Hl Hk Hinit. unfold mcpPostHandler.
  rewrite Hsid, (lookup_transport_unowned _ _ Hne Hl), Hk, Hinit.
  cbn [negb truthy_property orb]. by rewrite newSessionId_header.
Qed.

(** Claim C2, as the code has it.  In every reachable state an entry of
    the session table names one transport, which was created for that
    identifier and, unless the identifier is [__proto__], is live.  A
    request that bears a known identifier and does not initialize is handed
    to that transport and changes nothing.  Of two requests with the same
    identifier, the second one not initializing, the second goes where the
    first went, whatever happens in between, as long as nothing in between
    creates a transport under that identifier or closes one created under
    it.  And an initialization request always gets a new transport. *)
Theorem reachable_routing s :
  reachable s →
  (∀ sid t, transports s !! sid = Some t →
     (∃ tr, created s !! t = Some tr ∧ sessionId tr = sid)
     ∧ (sid ≠ "__proto__" → live s t))
  ∧ (∀ uuid req sid t,
       mcp_session_id req = Some sid → sid ≠ "" →
       transports s !! sid = Some t → is_initialize req = false →
       mcpPostHandler uuid req s = (s, HandleRequest t))
  ∧ (∀ u1 r1 es u2 r2 sid t,
       mcp_session_id r1 = Some sid → mcp_session_id r2 = Some sid →
       sid ≠ "" → is_initialize r2 = false →
       (mcpPostHandler u1 r1 s).2 = HandleRequest t →
       undisturbed sid es (mcpPostHandler u1 r1 s).1 →
       mcpPostHandler u2 r2 (run es (mcpPostHandler u1 r1 s).1)
       = (run es (mcpPostHandler u1 r1 s).1, HandleRequest t))
  ∧ (∀ uuid req,
       is_initialize req = true →
       mcpPostHandler uuid req s =
         ({| transports :=
               <[newSessionId (mcp_session_id req) uuid := length (created s)]>
                 (transports s);
             created :=
               created s
               ++ [ {| sessionId := newSessionId (mcp_session_id req) uuid;
                       closed := false |} ] |},
          HandleRequest (length (created s)))).
Proof.
  intros Hs. split_and!.
  - intros sid t (tr & Htr & Hsid & Hc)%(reachable_table_ok s Hs).
    split; [by exists tr|]. intros Hne. exists tr. split; [done|by apply Hc].
  - intros. by eapply post_known_session.
  - intros u1 r1 es u2 r2 sid t H1 H2 Hne Hinit Ht Hes.
    apply post_known_session with sid; [done..| |done].
    rewrite (run_preserves_entry _ _ _ Hes). by apply post_entry_after.
  - intros. by apply post_initialize.
Qed.

(** A POST without a session identifier, or with an empty one, always gets
    a new transport, entered in the table under the generated identifier. *)
Theorem post_without_session_id uuid req s :
  truthy_opt_string (mcp_session_id req) = false →
  mcpPostHandler uuid req s =
    ({| transports := <[uuid := length (created s)]> (transports s);
        created := created s ++ [ {| sessionId := uuid; closed := false |} ] |},
     HandleRequest (length (created s))).
Proof.
  intros Hsid. unfold mcpPostHandler, lookup_transport, newSessionId.
  destruct (mcp_session_id req) as [k|]; simpl in Hsid; [|done].
  by rewrite Hsid.
Qed.

(** A session identifier that names a member of [Object.prototype] and is
    not a key of the table gets the 500 answer, from POST (unless it
    initializes) and from GET, and the server stays as it was. *)
Theorem unowned_prototype_key uuid req s sid :
  mcp_session_id req = Some sid →
  sid ∈ object_prototype_keys →
  transports s !! sid = None →
  mcpGetHandler req s = InternalServerError
  ∧ (is_initialize req = false →
     mcpPostHandler uuid req s = (s, InternalServerError)).
Proof.
  intros Hsid Hk Hl. split; [|by apply post_inherited_key with sid].
  unfold mcpGetHandler, lookup_transport.
  rewrite Hsid, (prototype_key_truthy _ Hk).
  unfold js_get. by rewrite Hl, inherited_prototype_key.
Qed.


(** In a reachable state no transport is entered under two identifiers. *)
Theorem table_is_injective s k1 k2 t :
  reachable s →
  transports s !! k1 = Some t → transports s !! k2 = Some t → k1 = k2.
Proof.
  intros Hs%reachable_table_ok (tr1 & H1 & <- & _)%Hs (tr2 & H2 & <- & _)%Hs.
  congruence.
Qed.

(** When the transport of a session in the table closes, under an
    identifier other than [__proto__], the session's entry is removed.  A
    later GET with that identifier is answered 400, and a later POST with
    it gets a new transport; unless the identifier is found through the
    table's prototype chain: then GET, and a POST that does not
    initialize, get the 500 answer.  The new transport is not the closed
    one. *)
Theorem closed_session_is_forgotten s sid t :
  reachable s →
  transports s !! sid = Some t →
  sid ≠ "" → sid ≠ "__proto__" →
  transports (onclose t s) !! sid = None
  ∧ (∀ req, mcp_session_id req = Some sid →
       mcpGetHandler req (onclose t s)
       = if inherited (transports (onclose t s)) sid
         then InternalServerError else BadRequest)
  ∧ (∀ uuid req, mcp_session_id req = Some sid →
       (mcpPostHandler uuid req (onclose t s)).2
       = if inherited (transports (onclose t s)) sid
            && negb (is_initialize req)
         then InternalServerError
         else HandleRequest (length (created s)))
  ∧ length (created s) ≠ t.
Proof.
  intros Hs Hl Hne Hproto.
  destruct (reachable_table_ok s Hs sid t Hl) as (tr & Htr & Hsid & _).
  assert (transports (onclose t s) !! sid = None) as Hgone.
  { unfold onclose. rewrite Htr. simpl.
    rewrite Hsid, js_delete_other by done. apply lookup_delete_eq. }
  split_and!; [done| | |].
  - intros req Hreq. unfold mcpGetHandler.
    rewrite Hreq, (lookup_transport_unowned _ _ Hne Hgone).
    by destruct (inherited _ _).
  - intros uuid req Hreq. unfold mcpPostHandler.
    rewrite Hreq, (lookup_transport_unowned _ _ Hne Hgone).
    destruct (inherited _ _), (is_initialize req);
      cbn [negb truthy_property orb andb snd];
      by rewrite ?length_created_onclose.
  - apply lookup_lt_Some in Htr. lia.
Qed.

(** In a reachable state, a request that bears an identifier other than
    [__proto__], or none, and that a handler hands to a transport, is
    handed to one that has not closed. *)
Theorem handlers_reach_live_transports s uuid req t :
  reachable s →
  mcp_session_id req ≠ Some "__proto__" →
  ((mcpPostHandler uuid req s).2 = HandleRequest t →
   live (mcpPostHandler uuid req s).1 t)
  ∧ (mcpGetHandler req s = HandleRequest t → live s t).
Proof.
  intros Hok%reachable_table_ok Hreq. split.
  - unfold mcpPostHandler. destruct (negb _ || _).
    + intros [= <-]. unfold live. cbn [fst created]. eexists.
      rewrite lookup_app_r, Nat.sub_diag by done. by split.
    + unfold lookup_transport.
      destruct (mcp_session_id req) as [k|]; [|done].
      destruct (truthy_string k); [|done]. unfold js_get.
      destruct (transports s !! k) as [t'|] eqn:Hl;
        [|by destruct (inherited _ _)].
      simpl. intros [= <-]. destruct (Hok k t' Hl) as (tr & ? & _ & Hc).
      exists tr. split; [done|]. apply Hc. congruence.
  - unfold mcpGetHandler, lookup_transport.
    destruct (mcp_session_id req) as [k|]; [|done].
    destruct (truthy_string k); [|done]. unfold js_get.
    destruct (transports s !! k) as [t'|] eqn:Hl;
      [|by destruct (inherited _ _)].
    intros [= <-]. destruct (Hok k t' Hl) as (tr & ? & _ & Hc).
    exists tr. split; [done|]. apply Hc. congruence.
Qed.

End SessionFacts.

(** ** Strings *)

Lemma append_cons (x : ascii) (a b : string) :
  String x a +:+ b = String x (a +:+ b).
Proof. reflexivity. Qed.

Lemma append_nil_l (a : string) : "" +:+ a = a.
Proof. reflexivity. Qed.

Lemma append_assoc (a b c : string) : (a +:+ b) +:+ c = a +:+ b +:+ c.
Proof.
  induction a as [|x a IH]; [done|]. by rewrite !append_cons, IH.
Qed.

Lemma append_nil_r (a : string) : a +:+ "" = a.
Proof.
  induction a as [|x a IH]; [done|]. by rewrite append_cons, IH.
Qed.

Lemma map_chars_append f (a b : string) :
  map_chars f (a +:+ b) = map_chars f a +:+ map_chars f b.
Proof.
  induction a as [|x a IH]; [done|].
  rewrite append_cons. simpl. by rewrite IH.
Qed.

(** A split of the image of a character-wise map comes from a split of
    its argument. *)
Lemma map_chars_split f (s a b : string) :
  map_chars f s = a +:+ b →
  ∃ s1 s2, s = s1 +:+ s2 ∧ map_chars f s1 = a ∧ map_chars f s2 = b.
Proof.
  revert s. induction a as [|x a IH]; intros s Hs.
  - by exists "", s.
  - destruct s as [|y s]; [done|]. simpl in Hs. injection Hs as Hy Hs.
    destruct (IH _ Hs) as (s1 & s2 & -> & <- & <-).
    exists (String y s1), s2. by rewrite <- Hy.
Qed.



Lemma contains_append_l (a text line : string) :
  contains text line → contains (a +:+ text) line.
Proof.
  intros (pre & post & ->). exists (a +:+ pre), post. by rewrite append_assoc.
Qed.

Lemma contains_append_r (text b line : string) :
  contains text line → contains (text +:+ b) line.
Proof.
  intros (pre & post & ->). exists pre, (post +:+ b).
  by rewrite !append_assoc.
Qed.

Lemma contains_self (line : string) : contains line line.
Proof. exists "", "". by rewrite append_nil_r. Qed.




(** ** Loops that append to [result] *)

Lemma forEach_from_appending {A} (f : string → nat → A → string) :
  appending f →
  ∀ l i result, forEach_from f i l result = result +:+ forEach_from f i l "".
Proof.
  intros Hf. induction l as [|x l IH]; intros i result; simpl.
  - by rewrite append_nil_r.
  - rewrite IH, (IH _ (f "" i x)), (Hf result). by rewrite append_assoc.
Qed.

Lemma forEach_appending {A} (f : string → nat → A → string) l result :
  appending f → forEach f l result = result +:+ forEach f l "".
Proof. intros Hf. by apply forEach_from_appending. Qed.

Section ToolFacts.
Context `{Engine}.

Lemma props_outcome_appending : appending props_outcome.
Proof. intros result i o. unfold props_outcome. by rewrite append_nil_l. Qed.

Lemma props_market_appending : appending props_market.
Proof.
  intros result i m. unfold props_market.
  rewrite (forEach_appending _ _ (result +:+ _)) by apply props_outcome_appending.
  rewrite (forEach_appending _ _ ("" +:+ _)) by apply props_outcome_appending.
  by rewrite append_nil_l, !append_assoc.
Qed.

Lemma props_event_appending result event propsData :
  props_event result event propsData
  = result +:+ props_event "" event propsData.
Proof.
  unfold props_event.
  destruct (propsData_bookmakers propsData) as [[|b bs]|];
    [by rewrite append_nil_l, !append_assoc| |
     by rewrite append_nil_l, !append_assoc].
  destruct (List.find _ _) as [[k t [[|m ms]|]]|];
    try by rewrite append_nil_l, !append_assoc.
  rewrite (forEach_appending _ _ ((result +:+ _) +:+ _))
    by apply props_market_appending.
  rewrite (forEach_appending _ _ (("" +:+ _) +:+ _))
    by apply props_market_appending.
  by rewrite append_nil_l, !append_assoc.
Qed.

(** One iteration of the loop: one fetch, and one block after [result],
    whatever the fetch brings. *)
Lemma process_event_block net sport markets result event calls :
  process_event net sport markets result event calls
  = (Normal (result +:+ event_block net sport markets (length calls) event),
     calls ++ [propsUrl sport markets event]).
Proof.
  unfold process_event, try_catch, bind, fetch, event_block, lift, ret.
  destruct (net _ _) as [propsResponse|message]; [|done].
  destruct (ok propsResponse); simpl; [|done].
  destruct (body propsResponse) as [propsData|message]; [|done].
  by rewrite props_event_appending.
Qed.

Lemma event_blocks_cons net sport markets first event events :
  event_blocks net sport markets first (event :: events)
  = event_block net sport markets first event
    :: event_blocks net sport markets (S first) events.
Proof.
  unfold event_blocks. rewrite imap_cons, Nat.add_0_r. f_equal.
  apply imap_ext. intros i e _. simpl. f_equal. lia.
Qed.

Lemma event_blocks_lookup net sport markets first events i event :
  events !! i = Some event →
  event_blocks net sport markets first events !! i
  = Some (event_block net sport markets (first + i) event).
Proof. intros Hi. unfold event_blocks. by rewrite list_lookup_imap, Hi. Qed.

Lemma length_event_blocks net sport markets first events :
  length (event_blocks net sport markets first events) = length events.
Proof. apply length_imap. Qed.

(** The whole loop: every event gets its fetch and its block, in order. *)
Lemma for_of_process_event net sport markets events :
  ∀ result calls,
    for_of (process_event net sport markets) events result calls
    = (Normal (result +:+ concat_blocks
                 (event_blocks net sport markets (length calls) events)),
       calls ++ map (propsUrl sport markets) events).
Proof.
  induction events as [|event events IH]; intros result calls.
  - simpl. unfold ret. by rewrite append_nil_r, app_nil_r.
  - cbn [for_of]. unfold bind. rewrite process_event_block, IH.
    rewrite event_blocks_cons, length_app, Nat.add_1_r. simpl.
    by rewrite append_assoc, <- app_assoc.
Qed.

Lemma contains_concat_blocks blocks i block :
  blocks !! i = Some block → contains (concat_blocks blocks) block.
Proof.
  revert i. induction blocks as [|b blocks IH]; intros [|i] Hi; try done.
  - injection Hi as ->. simpl. apply contains_append_r, contains_self.
  - simpl. by eapply contains_append_l, IH.
Qed.

(** What an invocation returns and fetches once the events call has
    brought an array. *)
Lemma fetch_player_props_events net now a calls events :
  events_fetched net calls a events →
  fetch_player_props net now a calls =
    match filterEvents (team_filter a) events with
    | [] =>
        (Content (props_header now (sport a) (resolve_markets a) (team_filter a)
                  +:+ no_games_found (team_filter a)),
         calls ++ [events_url (sport a)])
    | _ =>
        (Content (props_preamble now a (processed a events)
                  +:+ concat_blocks
                        (event_blocks net (sport a) (resolve_markets a)
                           (length calls + 1) (processed a events))),
         calls ++ events_url (sport a)
           :: map (propsUrl (sport a) (resolve_markets a)) (processed a events))
    end.
Proof.
  intros (r & Hnet & Hok & Hbody).
  unfold fetch_player_props, fetch_player_props_try, bind, fetch, lift.
  rewrite Hnet, Hok, Hbody. cbn [negb].
  unfold processed, props_preamble.
  destruct (filterEvents _ _) as [|e es]; [done|].
  rewrite for_of_process_event, length_app, <- app_assoc. simpl.
  by rewrite !append_assoc.
Qed.

(** Whatever the provider answers, an invocation makes the events call
    and then the per-event calls of at most three events. *)
Lemma fetch_player_props_calls net now a calls :
  ∃ games,
    (fetch_player_props net now a calls).2
    = calls ++ events_url (sport a)
        :: map (propsUrl (sport a) (resolve_markets a)) games
    ∧ (length games ≤ 3)%nat.
Proof.
  destruct (net (length calls) (events_url (sport a))) as [r|message] eqn:Hnet.
  - destruct (ok r) eqn:Hok.
    + destruct (body r) as [[events|g]|message] eqn:Hbody.
      * rewrite (fetch_player_props_events _ _ _ _ events) by by exists r.
        destruct (filterEvents _ _) as [|e es] eqn:Hf.
        { exists []. simpl. split; [done|lia]. }
        eexists. split; [done|]. unfold processed, gamesToProcess.
        rewrite length_take. lia.
      * exists []. unfold fetch_player_props, fetch_player_props_try, bind,
          fetch, lift. rewrite Hnet, Hok, Hbody. cbn [negb].
        destruct (truthy_opt_string _); simpl; (split; [done|lia]).
      * exists []. unfold fetch_player_props, fetch_player_props_try, bind,
          fetch, lift. rewrite Hnet, Hok, Hbody. simpl. split; [done|lia].
    + exists []. unfold fetch_player_props, fetch_player_props_try, bind,
        fetch, throw. rewrite Hnet, Hok. simpl. split; [done|lia].
  - exists []. unfold fetch_player_props, fetch_player_props_try, bind, fetch.
    rewrite Hnet. simpl. split; [done|lia].
Qed.


(** The odds tool makes one call, whatever comes back. *)
Lemma fetch_sports_odds_calls net now a calls :
  (fetch_sports_odds net now a calls).2
  = calls ++ [odds_url (sport a) (default ["h2h"] (markets a))
                (default "us" (regions a))].
Proof.
  unfold fetch_sports_odds, fetch_sports_odds_try, bind, fetch, lift, throw, ret.
  destruct (net _ _) as [r|message]; [|done].
  destruct (ok r); [|done]. cbn [negb].
  destruct (body r) as [[[|g gs]|g]|message]; try done.
  by destruct (forEach_throwing _ _ _).
Qed.

Lemma fetch_sports_odds_not_ok net now a calls r :
  net (length calls)
    (odds_url (sport a) (default ["h2h"] (markets a)) (default "us" (regions a)))
  = Normal r →
  ok r = false →
  (fetch_sports_odds net now a calls).1
  = ToolError ("Failed to execute fetch_sports_odds: API call failed: "
               +:+ pretty (status r) +:+ " " +:+ statusText r).
Proof.
  intros Hnet Hok.
  unfold fetch_sports_odds, fetch_sports_odds_try, bind, fetch, throw.
  by rewrite Hnet, Hok.
Qed.

Lemma fetch_player_props_not_ok net now a calls r :
  net (length calls) (events_url (sport a)) = Normal r →
  ok r = false →
  fetch_player_props net now a calls
  = (ToolError ("Failed to fetch player props: Events API call failed: "
                +:+ pretty (status r)),
     calls ++ [events_url (sport a)]).
Proof.
  intros Hnet Hok.
  unfold fetch_player_props, fetch_player_props_try, bind, fetch, throw.
  by rewrite Hnet, Hok.
Qed.

(** Once the events call has brought an array with something to process,
    the invocation returns a report: the preamble and one block for each
    processed event. *)
Lemma fetch_player_props_report net now a calls events :
  events_fetched net calls a events →
  processed a events ≠ [] →
  (fetch_player_props net now a calls).1
  = Content (props_preamble now a (processed a events)
             +:+ concat_blocks
                   (event_blocks net (sport a) (resolve_markets a)
                      (length calls + 1) (processed a events))).
Proof.
  intros Hev Hne. rewrite (fetch_player_props_events _ _ _ _ events Hev).
  unfold processed, gamesToProcess in Hne.
  by destruct (filterEvents _ _).
Qed.

(** Claim C5, as the code has it: a non-2xx answer to the odds call or to
    the events call ends the tool call with an error whose message carries
    the status; a non-2xx answer to a per-event odds call does not: the
    tool returns a report in which the block of that event is the inline
    error with the status. *)
Theorem non_2xx_response net now a calls r :
  ok r = false →
  (net (length calls)
     (odds_url (sport a) (default ["h2h"] (markets a))
        (default "us" (regions a))) = Normal r →
   (fetch_sports_odds net now a calls).1
   = ToolError ("Failed to execute fetch_sports_odds: API call failed: "
                +:+ pretty (status r) +:+ " " +:+ statusText r))
  ∧ (net (length calls) (events_url (sport a)) = Normal r →
     (fetch_player_props net now a calls).1
     = ToolError ("Failed to fetch player props: Events API call failed: "
                  +:+ pretty (status r)))
  ∧ (∀ events i event,
       events_fetched net calls a events →
       processed a events !! i = Some event →
       net (length calls + 1 + i)
         (propsUrl (sport a) (resolve_markets a) event) = Normal r →
       ∃ blocks,
         (fetch_player_props net now a calls).1
         = Content (props_preamble now a (processed a events)
                    +:+ concat_blocks blocks)
         ∧ blocks !! i = Some (unavailable_block event (status r))).
Proof.
  intros Hok. split_and!.
  - intros Hnet. by apply fetch_sports_odds_not_ok.
  - intros Hnet. by rewrite (fetch_player_props_not_ok _ _ _ _ r).
  - intros events i event Hev Hi Hnet. eexists. split.
    + apply fetch_player_props_report; [done|]. by intros Hnil; rewrite Hnil in Hi.
    + rewrite (event_blocks_lookup _ _ _ _ _ _ _ Hi).
      unfold event_block. by rewrite Hnet, Hok.
Qed.


(** Claim C7: an invocation fetches the events list and then the odds of
    the first [min 3 n] of the [n] filtered events, in the provider's
    order, and of no other; so never more than three. *)
Theorem props_fetches_first_three net now a calls :
  ∃ per_event,
    (fetch_player_props net now a calls).2
    = calls ++ events_url (sport a) :: per_event
    ∧ (length per_event ≤ 3)%nat
    ∧ ∀ events,
        events_fetched net calls a events →
        per_event
        = map (propsUrl (sport a) (resolve_markets a))
            (take 3 (filterEvents (team_filter a) events))
        ∧ length per_event
          = 3 `min` length (filterEvents (team_filter a) events).
Proof.
  destruct (fetch_player_props_calls net now a calls) as (games & Hc & Hle).
  exists (map (propsUrl (sport a) (resolve_markets a)) games).
  split_and!; [done|by rewrite length_map|].
  intros events Hev.
  rewrite (fetch_player_props_events _ _ _ _ events Hev) in Hc.
  assert (map (propsUrl (sport a) (resolve_markets a)) games
          = map (propsUrl (sport a) (resolve_markets a))
              (take 3 (filterEvents (team_filter a) events))) as ->.
  { unfold processed, gamesToProcess in Hc.
    destruct (filterEvents _ _) as [|e es];
      apply app_inv_head in Hc; by injection Hc as <-. }
  split; [done|]. by rewrite length_map, length_take.
Qed.

(** Claim C8: once the events call has succeeded, the tool returns a
    report with one block for each processed event, and the block of an
    event depends on the answer to its own fetch alone: the inline error
    naming the failure when that fetch throws, brings a non-2xx status or
    an unreadable body, and the event's rendered data otherwise. *)
Theorem failed_event_fetch_is_inline net now a calls events :
  events_fetched net calls a events →
  processed a events ≠ [] →
  ∃ blocks,
    (fetch_player_props net now a calls).1
    = Content (props_preamble now a (processed a events)
               +:+ concat_blocks blocks)
    ∧ length blocks = length (processed a events)
    ∧ ∀ i event,
        processed a events !! i = Some event →
        blocks !! i = Some
          match net (length calls + 1 + i)
                  (propsUrl (sport a) (resolve_markets a) event) with
          | Throw message => error_block event message
          | Normal propsResponse =>
              if ok propsResponse then
                match body propsResponse with
                | Normal propsData => props_event "" event propsData
                | Throw message => error_block event message
                end
              else unavailable_block event (status propsResponse)
          end.
Proof.
  intros Hev Hne. eexists. split_and!.
  - by apply fetch_player_props_report.
  - apply length_event_blocks.
  - intros i event Hi. by rewrite (event_blocks_lookup _ _ _ _ _ _ _ Hi).
Qed.

(** ** Sections without data *)

Lemma props_event_no_bookmaker_data result event propsData :
  no_bookmaker_data propsData →
  props_event result event propsData
  = result +:+ event_heading event +:+ "Starts: "
    +:+ date_toLocaleString (commence_time event) +:+ newline
    +:+ "No bookmaker data available for this game" +:+ newline +:+ newline.
Proof.
  intros Hno. unfold props_event.
  destruct Hno as [-> | ->]; by rewrite !append_assoc.
Qed.

Lemma props_event_no_draftkings_props result event propsData :
  no_draftkings_props propsData →
  props_event result event propsData
  = result +:+ event_heading event +:+ "Starts: "
    +:+ date_toLocaleString (commence_time event) +:+ newline
    +:+ "No DraftKings props available for this game" +:+ newline +:+ newline.
Proof.
  intros (b & bs & Hbs & Hdk). unfold props_event. rewrite Hbs.
  destruct (List.find _ _) as [[k t ms]|].
  - simpl in Hdk. destruct Hdk as [-> | ->]; by rewrite !append_assoc.
  - by rewrite !append_assoc.
Qed.

Lemma odds_game_no_bookmakers result index g :
  bookmakers g = None ∨ bookmakers g = Some [] →
  odds_game result index g
  = Normal (result +:+ pretty (index + 1) +:+ ". " +:+ away_team g +:+ " @ "
            +:+ home_team g +:+ newline +:+ "   Starts: "
            +:+ date_toLocaleString (commence_time g) +:+ newline +:+ newline).
Proof.
  intros Hno. unfold odds_game.
  destruct Hno as [-> | ->]; by rewrite !append_assoc.
Qed.

(** Claim C4, as the code has it: in the props report, the block of an
    event whose odds were fetched says so in a line of its own when the
    answer has no bookmakers, and when it has bookmakers but no DraftKings
    entry with markets. *)
Theorem props_report_says_no_data
    net now a calls events i event propsResponse propsData :
  events_fetched net calls a events →
  processed a events !! i = Some event →
  net (length calls + 1 + i)
    (propsUrl (sport a) (resolve_markets a) event) = Normal propsResponse →
  ok propsResponse = true →
  body propsResponse = Normal propsData →
  ∃ text,
    (fetch_player_props net now a calls).1 = Content text
    ∧ (no_bookmaker_data propsData →
       contains text
         (event_heading event +:+ "Starts: "
          +:+ date_toLocaleString (commence_time event) +:+ newline
          +:+ "No bookmaker data available for this game" +:+ newline
          +:+ newline))
    ∧ (no_draftkings_props propsData →
       contains text
         (event_heading event +:+ "Starts: "
          +:+ date_toLocaleString (commence_time event) +:+ newline
          +:+ "No DraftKings props available for this game" +:+ newline
          +:+ newline)).
Proof.
  intros Hev Hi Hnet Hok Hbody.
  eexists. split.
  { apply fetch_player_props_report; [done|].
    by intros Hnil; rewrite Hnil in Hi. }
  assert (contains
            (props_preamble now a (processed a events)
             +:+ concat_blocks
                   (event_blocks net (sport a) (resolve_markets a)
                      (length calls + 1) (processed a events)))
            (props_event "" event propsData)) as Hblock.
  { apply contains_append_l, (contains_concat_blocks _ i).
    rewrite (event_blocks_lookup _ _ _ _ _ _ _ Hi).
    unfold event_block. by rewrite Hnet, Hok, Hbody. }
  split; intros Hno.
  - by rewrite props_event_no_bookmaker_data, append_nil_l in Hblock.
  - by rewrite props_event_no_draftkings_props, append_nil_l in Hblock.
Qed.

(** ** Points that are zero *)

Lemma truthy_number_zero (q : Q) : (q == 0)%Q → truthy_number q = false.
Proof.
  unfold Qeq, truthy_number. simpl. intros Hq.
  rewrite Z.mul_1_r in Hq. by rewrite Hq.
Qed.

Lemma odds_outcome_without_zero_point result i o :
  odds_outcome result i (without_zero_point o) = odds_outcome result i o.
Proof.
  unfold odds_outcome, without_zero_point. simpl.
  destruct (point o) as [q|]; [|done].
  destruct (truthy_number q) eqn:Hq; [by rewrite Hq|done].
Qed.

Lemma props_outcome_without_zero_point result i o :
  props_outcome result i (without_zero_point o) = props_outcome result i o.
Proof.
  unfold props_outcome, without_zero_point. simpl.
  destruct (point o) as [q|]; [|done].
  destruct (truthy_number q) eqn:Hq; [by rewrite Hq|done].
Qed.

Lemma forEach_from_map {A} (f : string → nat → A → string) (g : A → A) :
  (∀ result i x, f result i (g x) = f result i x) →
  ∀ l i result, forEach_from f i (map g l) result = forEach_from f i l result.
Proof.
  intros Hf. induction l as [|x l IH]; intros i result; [done|].
  simpl. by rewrite Hf, IH.
Qed.

Lemma forEach_throwing_from_map {A}
    (f : string → nat → A → completion string) (g : A → A) :
  (∀ result i x, f result i (g x) = f result i x) →
  ∀ l i result,
    forEach_throwing_from f i (map g l) result
    = forEach_throwing_from f i l result.
Proof.
  intros Hf. induction l as [|x l IH]; intros i result; [done|].
  simpl. rewrite Hf. by destruct (f result i x).
Qed.

Lemma odds_market_without_zero_points result i m :
  odds_market result i (market_without_zero_points m) = odds_market result i m.
Proof.
  unfold odds_market, market_without_zero_points, forEach. simpl.
  by rewrite forEach_from_map by apply odds_outcome_without_zero_point.
Qed.

Lemma props_market_without_zero_points result i m :
  props_market result i (market_without_zero_points m)
  = props_market result i m.
Proof.
  unfold props_market, market_without_zero_points, forEach. simpl.
  by rewrite forEach_from_map by apply props_outcome_without_zero_point.
Qed.

Lemma odds_bookmaker_without_zero_points result i b :
  odds_bookmaker result i (bookmaker_without_zero_points b)
  = odds_bookmaker result i b.
Proof.
  unfold odds_bookmaker, bookmaker_without_zero_points, forEach. simpl.
  destruct (bookmaker_markets b) as [ms|]; [|done]. simpl.
  by rewrite forEach_from_map by apply odds_market_without_zero_points.
Qed.

Lemma odds_game_without_zero_points result index g :
  odds_game result index (game_without_zero_points g)
  = odds_game result index g.
Proof.
  destruct g as [i h a c [[|b bs]|]]; [done| |done].
  unfold odds_game, game_without_zero_points, forEach_throwing.
  cbn [bookmakers home_team away_team commence_time fmap option_fmap
       option_map].
  change (map bookmaker_without_zero_points (b :: bs)) with
    (bookmaker_without_zero_points b :: map bookmaker_without_zero_points bs).
  cbv iota beta.
  change (bookmaker_without_zero_points b
          :: map bookmaker_without_zero_points bs)
    with (map bookmaker_without_zero_points (b :: bs)).
  by rewrite forEach_throwing_from_map
    by apply odds_bookmaker_without_zero_points.
Qed.

Lemma find_is_draftkings_without_zero_points bs :
  List.find is_draftkings (map bookmaker_without_zero_points bs)
  = bookmaker_without_zero_points <$> List.find is_draftkings bs.
Proof.
  induction bs as [|b bs IH]; [done|]. simpl.
  unfold is_draftkings at 1 3. simpl. by destruct (String.eqb _ _).
Qed.

Lemma props_event_without_zero_points result event propsData :
  props_event result event (json_without_zero_points propsData)
  = props_event result event propsData.
Proof.
  unfold props_event.
  assert (propsData_bookmakers (json_without_zero_points propsData)
          = map bookmaker_without_zero_points
              <$> propsData_bookmakers propsData) as ->.
  { by destruct propsData. }
  destruct (propsData_bookmakers propsData) as [[|b bs]|]; [done| |done].
  cbn [fmap option_fmap option_map].
  change (map bookmaker_without_zero_points (b :: bs)) with
    (bookmaker_without_zero_points b :: map bookmaker_without_zero_points bs).
  cbv iota beta.
  change (bookmaker_without_zero_points b
          :: map bookmaker_without_zero_points bs)
    with (map bookmaker_without_zero_points (b :: bs)).
  rewrite find_is_draftkings_without_zero_points.
  destruct (List.find is_draftkings (b :: bs)) as [[k t [[|m ms]|]]|];
    try done.
  unfold bookmaker_without_zero_points, forEach.
  cbn [fmap option_fmap option_map bookmaker_markets bookmaker_key title].
  change (map market_without_zero_points (m :: ms)) with
    (market_without_zero_points m :: map market_without_zero_points ms).
  cbv iota beta.
  change (market_without_zero_points m :: map market_without_zero_points ms)
    with (map market_without_zero_points (m :: ms)).
  by rewrite forEach_from_map by apply props_market_without_zero_points.
Qed.

(** Claim C10: an outcome whose point is the number 0 is rendered, by the
    odds renderer and by the props renderer, as the same outcome without a
    point; and so is a whole game or event whose zero points are taken
    out. *)
Theorem zero_point_is_omitted :
  (∀ result i o q,
     point o = Some q → (q == 0)%Q →
     let o' := {| name := name o; description := description o;
                  price := price o; point := None |} in
     odds_outcome result i o = odds_outcome result i o'
     ∧ props_outcome result i o = props_outcome result i o')
  ∧ (∀ result index g,
       odds_game result index (game_without_zero_points g)
       = odds_game result index g)
  ∧ (∀ result event propsData,
       props_event result event (json_without_zero_points propsData)
       = props_event result event propsData).
Proof.
  split_and!.
  - intros result i o q Hp Hq%truthy_number_zero. simpl.
    unfold odds_outcome, props_outcome. simpl. by rewrite Hp, Hq.
  - apply odds_game_without_zero_points.
  - apply props_event_without_zero_points.
Qed.

End ToolFacts.

(** ** The provider key *)

Lemma contains_key_events_url sport :
  contains (events_url sport) ("apiKey=" +:+ apiKey).
Proof.
  unfold events_url. do 3 apply contains_append_l. by exists "/events?", "".
Qed.

Lemma contains_key_propsUrl sport markets event :
  contains (propsUrl sport markets event) ("apiKey=" +:+ apiKey).
Proof.
  unfold propsUrl. do 5 apply contains_append_l.
  by exists "/odds?",
    ("&regions=us&markets=" +:+ join "," markets +:+ "&bookmakers=draftkings").
Qed.

Lemma contains_key_odds_url sport markets regions :
  contains (odds_url sport markets regions) ("apiKey=" +:+ apiKey).
Proof.
  unfold odds_url. do 3 apply contains_append_l.
  by exists "/odds/?",
    ("&regions=" +:+ regions +:+ "&markets=" +:+ join "," markets
     +:+ "&oddsFormat=decimal&dateFormat=iso").
Qed.

Lemma port_delete_other k env : k ≠ "PORT" → port (delete k env) = port env.
Proof. intros Hk. unfold port. by rewrite lookup_delete_ne. Qed.

Lemma port_insert_other k v env :
  k ≠ "PORT" → port (<[k := v]> env) = port env.
Proof. intros Hk. unfold port. by rewrite lookup_insert_ne. Qed.

(** Claim C9, as the code has it: the provider key is a literal of the
    program.  Startup reads no key from the environment and goes on to
    listen whether or not one is there, and every URL the two tools fetch
    carries the literal. *)
Theorem api_key_is_a_literal :
  (∀ env v listen_error,
     startup (delete "ODDS_API_KEY" env) listen_error = startup env listen_error
     ∧ startup (<["ODDS_API_KEY" := v]> env) listen_error
       = startup env listen_error)
  ∧ (∀ env, startup env None = Listening (port env))
  ∧ (∀ (E : Engine) net now a calls,
       ∃ urls,
         (fetch_sports_odds net now a calls).2 = calls ++ urls
         ∧ Forall (λ url, contains url ("apiKey=" +:+ apiKey)) urls)
  ∧ (∀ (E : Engine) net now a calls,
       ∃ urls,
         (fetch_player_props net now a calls).2 = calls ++ urls
         ∧ Forall (λ url, contains url ("apiKey=" +:+ apiKey)) urls).
Proof.
  split_and!.
  - intros env v listen_error. unfold startup.
    by rewrite port_delete_other, port_insert_other.
  - done.
  - intros E net now a calls. eexists. split.
    + apply fetch_sports_odds_calls.
    + repeat constructor. apply contains_key_odds_url.
  - intros E net now a calls.
    destruct (fetch_player_props_calls net now a calls) as (games & -> & _).
    eexists. split; [done|]. constructor.
    + apply contains_key_events_url.
    + apply Forall_map, Forall_true. intros event.
      apply contains_key_propsUrl.
Qed.

(** Claim C9 as stated fails: with no key in the environment the server
    goes on to listen, and a tool call made then fetches with the literal
    key. *)
Lemma startup_without_key_counterexample :
  (∅ : gmap string string) !! "ODDS_API_KEY" = None
  ∧ startup ∅ None = Listening (PortDefault 10000)
  ∧ (fetch_sports_odds (H := example_engine) example_network_no_bookmakers
       example_now (example_arguments "baseball_mlb" None) []).2
    = [ "https://api.the-odds-api.com/v4/sports/baseball_mlb/odds/?apiKey=e2589acbc9f5ed09664e15a3fd90682d&regions=us&markets=h2h&oddsFormat=decimal&dateFormat=iso" ].
Proof. split_and!; reflexivity. Qed.

(** ** Default markets of the props tool *)

(** The callback by itself would pick the markets by sport. *)
Lemma resolve_markets_by_sport a :
  markets a = None →
  resolve_markets a
  = if String.eqb (sport a) "basketball_wnba"
    then ["player_points"; "player_rebounds"; "player_assists"]
    else ["batter_home_runs"; "pitcher_strikeouts"].
Proof. intros Hm. unfold resolve_markets. by rewrite Hm. Qed.

(** But the schema has filled [markets] before the callback runs. *)
Lemma props_inputSchema_fills_markets a a' :
  props_inputSchema a = Some a' → markets a = None →
  resolve_markets a' = ["batter_home_runs"; "pitcher_strikeouts"].
Proof.
  unfold props_inputSchema. case_bool_decide; [|done].
  intros [= <-] Hm. unfold resolve_markets. simpl. by rewrite Hm.
Qed.

(** Claim C3 at a call for [basketball_wnba] without [markets]: the
    schema's default, the baseball markets, is what the callback receives
    and what the per-event calls ask for. *)
Theorem wnba_call_uses_schema_default :
  let a := example_arguments "basketball_wnba" None in
  markets a = None
  ∧ resolve_markets <$> props_inputSchema a
    = Some ["batter_home_runs"; "pitcher_strikeouts"]
  ∧ snd <$> call_fetch_player_props (H := example_engine) example_network
              example_now a
    = Some
        [ "https://api.the-odds-api.com/v4/sports/basketball_wnba/events?apiKey=e2589acbc9f5ed09664e15a3fd90682d";
          "https://api.the-odds-api.com/v4/sports/basketball_wnba/events/e1/odds?apiKey=e2589acbc9f5ed09664e15a3fd90682d&regions=us&markets=batter_home_runs,pitcher_strikeouts&bookmakers=draftkings";
          "https://api.the-odds-api.com/v4/sports/basketball_wnba/events/e2/odds?apiKey=e2589acbc9f5ed09664e15a3fd90682d&regions=us&markets=batter_home_runs,pitcher_strikeouts&bookmakers=draftkings";
          "https://api.the-odds-api.com/v4/sports/basketball_wnba/events/e3/odds?apiKey=e2589acbc9f5ed09664e15a3fd90682d&regions=us&markets=batter_home_runs,pitcher_strikeouts&bookmakers=draftkings" ].
Proof. split_and!; reflexivity. Qed.

Example mlb_call_uses_baseball_markets :
  resolve_markets <$> props_inputSchema (example_arguments "baseball_mlb" None)
  = Some ["batter_home_runs"; "pitcher_strikeouts"].
Proof. reflexivity. Qed.

(** ** The theorems at work on the example data *)

Lemma props_report_says_no_data_witness :
  ∃ text,
    (fetch_player_props (H := example_engine) example_network_no_bookmakers
       example_now (example_arguments "baseball_mlb" None) []).1
    = Content text
    ∧ contains text
        (join newline
           [ "--- Boston Red Sox @ New York Yankees ---";
             "Starts: 2025-07-01T23:05:00Z";
             "No bookmaker data available for this game"; ""; "" ]).
Proof.
  destruct (props_report_says_no_data (H := example_engine)
              example_network_no_bookmakers example_now
              (example_arguments "baseball_mlb" None) []
              (take 1 example_events) 0
              yankees_event
              {| status := 200; statusText := "OK";
                 body := Normal (JsonObject
                   (example_odds yankees_event (Some []))) |}
              (JsonObject (example_odds yankees_event (Some []))))
    as (text & Htext & Hno & _).
  - eexists. split_and!; reflexivity.
  - reflexivity.
  - reflexivity.
  - reflexivity.
  - reflexivity.
  - exists text. split; [exact Htext|]. apply Hno. right. reflexivity.
Defined.

(** Claim C4 as stated fails: the odds report of a game that comes without
    bookmakers has the game's heading and start line and nothing about the
    missing data. *)
Lemma odds_report_no_bookmakers_counterexample :
  example_network_no_bookmakers 0
    (odds_url "baseball_mlb" ["h2h"] "us")
  = ok_response
      (JsonArray [yankees_event])
  ∧ bookmakers yankees_event = None
  ∧ (fetch_sports_odds (H := example_engine) example_network_no_bookmakers
       example_now (example_arguments "baseball_mlb" None) []).1
    = Content
        (join newline
           [ "Sports Odds Report - BASEBALL_MLB";
             "Generated: 7/1/2025, 9:00:00 AM";
             "Markets: h2h";
             "Regions: us";
             "";
             "Found 1 games:";
             "";
             "1. Boston Red Sox @ New York Yankees";
             "   Starts: 2025-07-01T23:05:00Z";
             ""; "" ]).
Proof. split_and!; reflexivity. Qed.

Lemma non_2xx_response_witness :
  ok not_found = false
  ∧ (fetch_sports_odds (H := example_engine) (λ _ _, Normal not_found)
       example_now (example_arguments "baseball_mlb" None) []).1
    = ToolError
        "Failed to execute fetch_sports_odds: API call failed: 404 Not Found"
  ∧ (fetch_player_props (H := example_engine) (λ _ _, Normal not_found)
       example_now (example_arguments "baseball_mlb" None) []).1
    = ToolError "Failed to fetch player props: Events API call failed: 404".
Proof.
  assert (ok not_found = false) as Hok by reflexivity.
  destruct (non_2xx_response (H := example_engine) (λ _ _, Normal not_found)
              example_now (example_arguments "baseball_mlb" None) []
              not_found Hok) as (Hodds & Hevents & _).
  split_and!.
  - exact Hok.
  - apply Hodds. reflexivity.
  - apply Hevents. reflexivity.
Defined.

(** Claim C5 as stated fails: a 404 in answer to a per-event odds call
    leaves the tool call successful; the report carries the status in the
    block of the event. *)
Lemma per_event_non_2xx_counterexample :
  ok not_found = false
  ∧ example_network_404 1
      (propsUrl "baseball_mlb" ["batter_home_runs"; "pitcher_strikeouts"]
         yankees_event)
    = Normal not_found
  ∧ fetch_player_props (H := example_engine) example_network_404 example_now
      (example_arguments "baseball_mlb" None) []
    = (Content
         (join newline
            [ "Player Props Report - BASEBALL_MLB";
              "Generated: 7/1/2025, 9:00:00 AM";
              "Markets: batter_home_runs, pitcher_strikeouts";
              "";
              "Processing 1 games:";
              "";
              "--- Boston Red Sox @ New York Yankees ---";
              "Error: Unable to fetch props (404)";
              ""; "" ]),
       [ events_url "baseball_mlb";
         propsUrl "baseball_mlb" ["batter_home_runs"; "pitcher_strikeouts"]
           yankees_event ]).
Proof. split_and!; reflexivity. Qed.


Lemma props_fetches_first_three_witness :
  (fetch_player_props (H := example_engine) example_network example_now
     (example_arguments "baseball_mlb" None) []).2
  = events_url "baseball_mlb"
    :: map (propsUrl "baseball_mlb" ["batter_home_runs"; "pitcher_strikeouts"])
         [ yankees_event;
           mets_event;
           dodgers_event ].
Proof.
  destruct (props_fetches_first_three (H := example_engine) example_network
              example_now (example_arguments "baseball_mlb" None) [])
    as (per_event & Hcalls & _ & Hev).
  destruct (Hev example_events) as [-> _].
  - eexists. split_and!; reflexivity.
  - exact Hcalls.
Defined.

Lemma failed_event_fetch_is_inline_witness :
  ∃ blocks,
    (fetch_player_props (H := example_engine) example_network example_now
       (example_arguments "baseball_mlb" None) []).1
    = Content
        (join newline
           [ "Player Props Report - BASEBALL_MLB";
             "Generated: 7/1/2025, 9:00:00 AM";
             "Markets: batter_home_runs, pitcher_strikeouts";
             "";
             "Processing 3 games:";
             ""; "" ]
         +:+ concat_blocks blocks)
    ∧ blocks !! 0
      = Some (join newline
                [ "--- Boston Red Sox @ New York Yankees ---";
                  "Starts: 2025-07-01T23:05:00Z";
                  "";
                  "BATTER HOME RUNS:";
                  "  Aaron Judge: Over 1 (3)";
                  "  Aaron Judge: Under (2)";
                  ""; "" ])
    ∧ blocks !! 1
      = Some (join newline
                [ "--- Chicago Cubs @ New York Mets ---";
                  "Error: Unable to fetch props (404)"; ""; "" ])
    ∧ blocks !! 2
      = Some (join newline
                [ "--- San Diego Padres @ Los Angeles Dodgers ---";
                  "Error: fetch failed"; ""; "" ]).
Proof.
  destruct (failed_event_fetch_is_inline (H := example_engine) example_network
              example_now (example_arguments "baseball_mlb" None) []
              example_events) as (blocks & Hreport & _ & Hblocks).
  - eexists. split_and!; reflexivity.
  - discriminate.
  - exists blocks. split_and!.
    + exact Hreport.
    + apply (Hblocks 0 yankees_event). reflexivity.
    + apply (Hblocks 1 mets_event). reflexivity.
    + apply (Hblocks 2 dodgers_event). reflexivity.
Defined.

Lemma zero_point_is_omitted_witness :
  let under := {| name := "Under"; description := Some "Aaron Judge";
                  price := 2%Q; point := Some 0%Q |} in
  odds_outcome (H := example_engine) "" 0 under = "Under (2)"
  ∧ props_outcome (H := example_engine) "" 0 under
    = "  Aaron Judge: Under (2)" +:+ newline.
Proof.
  intros under.
  destruct (proj1 (zero_point_is_omitted (H := example_engine))
              "" 0 under 0%Q) as [Hodds Hprops].
  - reflexivity.
  - reflexivity.
  - split.
    + rewrite Hodds. reflexivity.
    + rewrite Hprops. reflexivity.
Defined.

(** ** Shutdown *)

Lemma shutdown_cons k keys s :
  shutdown (k :: keys) s = shutdown keys (shutdown_one k s).
Proof. reflexivity. Qed.

Lemma onclose_table_subset t s k t' :
  transports (onclose t s) !! k = Some t' → transports s !! k = Some t'.
Proof.
  unfold onclose. destruct (created s !! t); [|done].
  simpl. apply js_delete_subset.
Qed.

Lemma onclose_created_other t s t' :
  t' ≠ t → created (onclose t s) !! t' = created s !! t'.
Proof.
  intros Hne. unfold onclose. destruct (created s !! t); [|done].
  simpl. by rewrite list_lookup_insert_ne.
Qed.

Lemma onclose_closes t s tr :
  created s !! t = Some tr →
  created (onclose t s) !! t
  = Some {| sessionId := sessionId tr; closed := true |}.
Proof.
  intros Ht. unfold onclose. rewrite Ht. simpl.
  apply list_lookup_insert_eq. by eapply lookup_lt_Some.
Qed.

Lemma onclose_keeps_closed t s t' tr :
  created s !! t' = Some tr → closed tr = true →
  ∃ tr', created (onclose t s) !! t' = Some tr' ∧ closed tr' = true.
Proof.
  intros Ht' Hc. destruct (decide (t' = t)) as [->|Hne].
  - eexists. split; [by apply onclose_closes|done].
  - exists tr. by rewrite onclose_created_other.
Qed.

Lemma shutdown_one_table_subset k0 s k t :
  transports (shutdown_one k0 s) !! k = Some t → transports s !! k = Some t.
Proof.
  unfold shutdown_one. destruct (transports s !! k0) as [t0|]; [|done].
  simpl. intros Hl%js_delete_subset. by eapply onclose_table_subset.
Qed.

Lemma shutdown_one_deletes k s :
  k ≠ "__proto__" → transports (shutdown_one k s) !! k = None.
Proof.
  intros Hk. unfold shutdown_one.
  destruct (transports s !! k) as [t|] eqn:Hl; [|done].
  simpl. rewrite js_delete_other by done. apply lookup_delete_eq.
Qed.

Lemma shutdown_table_subset keys s k t :
  transports (shutdown keys s) !! k = Some t → transports s !! k = Some t.
Proof.
  revert s. induction keys as [|k0 keys IH]; intros s; [done|].
  rewrite shutdown_cons. intros Hl%IH. by eapply shutdown_one_table_subset.
Qed.

Lemma shutdown_deletes keys s k :
  k ≠ "__proto__" → k ∈ keys → transports (shutdown keys s) !! k = None.
Proof.
  intros Hproto. revert s. induction keys as [|k0 keys IH]; intros s Hk.
  - by apply elem_of_nil in Hk.
  - rewrite shutdown_cons. apply elem_of_cons in Hk as [->|Hk]; [|by apply IH].
    destruct (transports (shutdown keys _) !! k0) as [t|] eqn:Hl; [|done].
    apply shutdown_table_subset in Hl. by rewrite shutdown_one_deletes in Hl.
Qed.

Lemma shutdown_one_table_ok k s : table_ok s → table_ok (shutdown_one k s).
Proof.
  intros Hok. unfold shutdown_one.
  destruct (transports s !! k) as [t|]; [|done].
  intros k' t'. simpl. intros Hl%js_delete_subset.
  by apply (onclose_table_ok t s Hok).
Qed.

Lemma shutdown_one_keeps_closed k s t tr :
  created s !! t = Some tr → closed tr = true →
  ∃ tr', created (shutdown_one k s) !! t = Some tr' ∧ closed tr' = true.
Proof.
  intros Ht Hc. unfold shutdown_one.
  destruct (transports s !! k) as [t0|]; [|by exists tr].
  simpl. by eapply onclose_keeps_closed.
Qed.

Lemma shutdown_keeps_closed keys s t tr :
  created s !! t = Some tr → closed tr = true →
  ∃ tr', created (shutdown keys s) !! t = Some tr' ∧ closed tr' = true.
Proof.
  revert s tr. induction keys as [|k keys IH]; intros s tr Ht Hc.
  - by exists tr.
  - rewrite shutdown_cons.
    destruct (shutdown_one_keeps_closed k s t tr Ht Hc) as (tr' & Ht' & Hc').
    by eapply IH.
Qed.

Lemma shutdown_closes keys s k t :
  table_ok s → transports s !! k = Some t → k ∈ keys →
  ∃ tr, created (shutdown keys s) !! t = Some tr ∧ closed tr = true.
Proof.
  revert s. induction keys as [|k0 keys IH]; intros s Hok Hl Hk.
  - by apply elem_of_nil in Hk.
  - rewrite shutdown_cons.
    destruct (Hok k t Hl) as (tr & Htr & Hsid & _).
    destruct (decide (k0 = k)) as [->|Hne].
    + eapply (shutdown_keeps_closed keys _ t).
      * unfold shutdown_one. rewrite Hl. simpl. by apply onclose_closes.
      * done.
    + apply elem_of_cons in Hk as [->|Hk]; [done|].
      apply IH; [by apply shutdown_one_table_ok| |done].
      unfold shutdown_one.
      destruct (transports s !! k0) as [t0|] eqn:Hl0; [|done].
      simpl. rewrite js_delete_ne by done.
      destruct (Hok k0 t0 Hl0) as (tr0 & Htr0 & Hsid0 & _).
      unfold onclose. rewrite Htr0. simpl.
      rewrite js_delete_ne; [done|congruence].
Qed.

Lemma shutdown_created_other keys s t :
  (∀ k, transports s !! k ≠ Some t) →
  created (shutdown keys s) !! t = created s !! t.
Proof.
  revert s. induction keys as [|k0 keys IH]; intros s Hout; [done|].
  rewrite shutdown_cons, IH.
  - unfold shutdown_one.
    destruct (transports s !! k0) as [t0|] eqn:Hl0; [|done].
    simpl. apply onclose_created_other. intros ->. by apply (Hout k0).
  - intros k Hk%shutdown_one_table_subset. by apply (Hout k).
Qed.

Lemma js_delete_slot k (table : gmap string nat) :
  js_delete k table !! "__proto__" = table !! "__proto__".
Proof.
  unfold js_delete. destruct (String.eqb_spec k "__proto__"); [done|].
  by rewrite lookup_delete_ne.
Qed.

Lemma onclose_keeps_slot t s :
  transports (onclose t s) !! "__proto__" = transports s !! "__proto__".
Proof.
  unfold onclose. destruct (created s !! t); [|done].
  simpl. apply js_delete_slot.
Qed.

Lemma shutdown_keeps_slot keys s :
  transports (shutdown keys s) !! "__proto__" = transports s !! "__proto__".
Proof.
  revert s. induction keys as [|k keys IH]; intros s; [done|].
  rewrite shutdown_cons, IH. unfold shutdown_one.
  destruct (transports s !! k) as [t|]; [|done].
  simpl. rewrite js_delete_slot. apply onclose_keeps_slot.
Qed.

Section ShutdownFacts.
Context `{Sdk}.

(** Shutdown, visiting the keys of the table in whatever order, leaves
    the table without a key of its own, and every transport that was
    entered under one closed.  The prototype slot is not a key of the
    table: a table that has its first prototype is left empty, and one
    whose prototype is a transport keeps that prototype. *)
Theorem shutdown_closes_every_session keys s :
  reachable s →
  (∀ k, k ≠ "__proto__" → is_Some (transports s !! k) → k ∈ keys) →
  (∀ k, k ≠ "__proto__" → transports (shutdown keys s) !! k = None)
  ∧ (transports s !! "__proto__" = None → transports (shutdown keys s) = ∅)
  ∧ (transports (shutdown keys s) !! "__proto__" = transports s !! "__proto__")
  ∧ (∀ k t, k ≠ "__proto__" → transports s !! k = Some t →
       ∃ tr, created (shutdown keys s) !! t = Some tr ∧ closed tr = true).
Proof.
  intros Hs Hkeys.
  assert (∀ k, k ≠ "__proto__" → transports (shutdown keys s) !! k = None)
    as Hown.
  { intros k Hk.
    destruct (transports (shutdown keys s) !! k) as [t|] eqn:Hl; [|done].
    pose proof (shutdown_table_subset _ _ _ _ Hl) as Hl'.
    rewrite shutdown_deletes in Hl; [done..|]. apply Hkeys; [done|by eexists]. }
  split_and!; [done| | |].
  - intros Hproto. apply map_eq. intros k. rewrite lookup_empty.
    destruct (decide (k = "__proto__")) as [->|Hk]; [|by apply Hown].
    destruct (transports (shutdown keys s) !! "__proto__") as [t|] eqn:Hl;
      [|done].
    apply shutdown_table_subset in Hl. congruence.
  - apply shutdown_keeps_slot.
  - intros k t Hk Hl.
    eapply shutdown_closes; [by apply reachable_table_ok|done|].
    apply Hkeys; [done|by eexists].
Qed.

End ShutdownFacts.

(** Shutdown closes the transports of the table and no other: a transport
    that no key of the table names is after shutdown as it was before. *)
Theorem shutdown_leaves_displaced_transport keys s t :
  (∀ k, transports s !! k ≠ Some t) →
  created (shutdown keys s) !! t = created s !! t.
Proof. apply shutdown_created_other. Qed.

(** ** The session theorems at work *)

Section SessionExamples.
Local Existing Instance example_sdk.

Lemma post_unknown_session_witness :
  mcpPostHandler "7f1c" {| mcp_session_id := Some "abc"; is_initialize := false |}
    initial_server
  = ({| transports := <["abc" := 0]> ∅;
        created := [ {| sessionId := "abc"; closed := false |} ] |},
     HandleRequest 0).
Proof.
  apply (post_unknown_session "7f1c" _ initial_server "abc").
  - reflexivity.
  - discriminate.
  - reflexivity.
  - reflexivity.
  - reflexivity.
Defined.

(** Claim C1 as stated fails: from the empty table, a request with the
    unknown identifier ["abc"] and a body that does not initialize is
    handed to a transport created for it. *)
Lemma post_unknown_session_counterexample :
  let req := {| mcp_session_id := Some "abc"; is_initialize := false |} in
  transports initial_server !! "abc" = None
  ∧ is_initialize req = false
  ∧ (mcpPostHandler "7f1c" req initial_server).2 = HandleRequest 0
  ∧ created (mcpPostHandler "7f1c" req initial_server).1
    = [ {| sessionId := "abc"; closed := false |} ]
  ∧ ¬ session_not_found "7f1c" req initial_server.
Proof.
  simpl. split_and!; try reflexivity.
  intros [_ Hno]. by apply (Hno 0).
Qed.

(** Once a session has been initialized under [__proto__], a request that
    bears ["close"] and does not initialize gets the 500 answer and no
    transport. *)
Example close_after_proto_initialize :
  let init := {| mcp_session_id := Some "__proto__"; is_initialize := true |} in
  let call := {| mcp_session_id := Some "close"; is_initialize := false |} in
  let s := step (Post "7f1c" init) initial_server in
  transports s !! "close" = None
  ∧ mcpPostHandler "90ab" call s = (s, InternalServerError).
Proof.
  intros init call s. split; [reflexivity|].
  apply (transport_member_is_server_error "90ab" call s "close" 0);
    try reflexivity.
  discriminate.
Qed.

Lemma reachable_routing_witness :
  let init k := {| mcp_session_id := Some k; is_initialize := true |} in
  let call k := {| mcp_session_id := Some k; is_initialize := false |} in
  let s := step (Post "7f1c" (init "s1")) initial_server in
  let between := [Post "90ab" (init "s2"); Get (call "s2"); Close 1] in
  reachable s
  ∧ live s 0
  ∧ mcpPostHandler "a1b2" (call "s1") s = (s, HandleRequest 0)
  ∧ mcpPostHandler "c3d4" (call "s1") (run between s)
    = (run between s, HandleRequest 0)
  ∧ (mcpPostHandler "e5f6" (init "s1") s).2 = HandleRequest 1.
Proof.
  intros init call s between.
  assert (reachable s) as Hs.
  { apply reachable_step, reachable_initial. }
  destruct (reachable_routing s Hs) as (Htable & Hknown & Hlater & Hinit).
  split_and!.
  - exact Hs.
  - apply (Htable "s1" 0); [reflexivity|discriminate].
  - apply (Hknown "a1b2" (call "s1") "s1" 0);
      [reflexivity|discriminate|reflexivity..].
  - apply (Hlater "a1b2" (call "s1") between "c3d4" (call "s1") "s1" 0);
      [reflexivity|reflexivity|discriminate|reflexivity|reflexivity|].
    simpl. split_and!; [discriminate..|exact I].
  - rewrite (Hinit "e5f6" (init "s1") eq_refl). reflexivity.
Defined.

(** Claim C2 as stated fails: two initialization requests with the same
    session identifier are handed to two transports, both live and both
    created for that identifier. *)
Lemma reinitialize_counterexample :
  let init := {| mcp_session_id := Some "s1"; is_initialize := true |} in
  let first := mcpPostHandler "7f1c" init initial_server in
  let second := mcpPostHandler "90ab" init first.1 in
  reachable second.1
  ∧ first.2 = HandleRequest 0
  ∧ second.2 = HandleRequest 1
  ∧ created second.1 = [ {| sessionId := "s1"; closed := false |};
                         {| sessionId := "s1"; closed := false |} ]
  ∧ live second.1 0 ∧ live second.1 1.
Proof.
  intros init first second. split_and!; try reflexivity.
  - apply (reachable_step (Post "90ab" init)).
    apply (reachable_step (Post "7f1c" init)).
    apply reachable_initial.
  - by eexists.
  - by eexists.
Qed.

(** When the older of two such transports closes, its [onclose] removes
    the table entry of the newer one, which stays live. *)
Example stale_onclose_drops_entry :
  let init := {| mcp_session_id := Some "s1"; is_initialize := true |} in
  let s := run [Post "7f1c" init; Post "90ab" init; Close 0] initial_server in
  transports s !! "s1" = None ∧ live s 1.
Proof. split; [reflexivity|by eexists]. Qed.

Lemma post_without_session_id_witness :
  (mcpPostHandler "7f1c" {| mcp_session_id := Some ""; is_initialize := false |}
     initial_server).2 = HandleRequest 0
  ∧ transports
      (mcpPostHandler "7f1c"
         {| mcp_session_id := Some ""; is_initialize := false |}
         initial_server).1 !! "7f1c" = Some 0.
Proof.
  rewrite (post_without_session_id "7f1c"
             {| mcp_session_id := Some ""; is_initialize := false |}
             initial_server eq_refl).
  split; reflexivity.
Defined.

Lemma unowned_prototype_key_witness :
  let req := {| mcp_session_id := Some "constructor"; is_initialize := false |} in
  mcpGetHandler req initial_server = InternalServerError
  ∧ mcpPostHandler "7f1c" req initial_server
    = (initial_server, InternalServerError).
Proof.
  intros req.
  destruct (unowned_prototype_key "7f1c" req initial_server "constructor")
    as [Hget Hpost].
  - reflexivity.
  - apply (bool_decide_unpack _). vm_compute. exact I.
  - reflexivity.
  - split; [exact Hget|]. apply Hpost. reflexivity.
Defined.


Lemma table_is_injective_witness :
  let s := step (Post "7f1c" {| mcp_session_id := None; is_initialize := true |})
             initial_server in
  reachable s ∧ ∀ k, transports s !! k = Some 0 → k = "7f1c".
Proof.
  intros s.
  assert (reachable s) as Hs.
  { apply reachable_step, reachable_initial. }
  split; [exact Hs|]. intros k Hk.
  apply (table_is_injective s k "7f1c" 0 Hs Hk). reflexivity.
Defined.

Lemma closed_session_is_forgotten_witness :
  let req k b := {| mcp_session_id := Some k; is_initialize := b |} in
  let s := run [Post "7f1c" (req "s1" true); Post "90ab" (req "close" true)]
             initial_server in
  let s' := run [Post "7f1c" (req "__proto__" true);
                 Post "90ab" (req "close" true)] initial_server in
  mcpGetHandler (req "s1" false) s = HandleRequest 0
  ∧ mcpGetHandler (req "s1" false) (onclose 0 s) = BadRequest
  ∧ (mcpPostHandler "a1b2" (req "s1" false) (onclose 0 s)).2 = HandleRequest 2
  ∧ mcpGetHandler (req "close" false) s' = HandleRequest 1
  ∧ mcpGetHandler (req "close" false) (onclose 1 s') = InternalServerError
  ∧ (mcpPostHandler "a1b2" (req "close" false) (onclose 1 s')).2
    = InternalServerError
  ∧ (mcpPostHandler "a1b2" (req "close" true) (onclose 1 s')).2
    = HandleRequest 2.
Proof.
  intros req s s'.
  assert (reachable s) as Hs.
  { apply (reachable_step (Post "90ab" (req "close" true))).
    apply (reachable_step (Post "7f1c" (req "s1" true))).
    apply reachable_initial. }
  assert (reachable s') as Hs'.
  { apply (reachable_step (Post "90ab" (req "close" true))).
    apply (reachable_step (Post "7f1c" (req "__proto__" true))).
    apply reachable_initial. }
  destruct (closed_session_is_forgotten s "s1" 0 Hs)
    as (_ & Hget & Hpost & _); [reflexivity|discriminate..|].
  destruct (closed_session_is_forgotten s' "close" 1 Hs')
    as (_ & Hget' & Hpost' & _); [reflexivity|discriminate..|].
  split_and!.
  - reflexivity.
  - rewrite (Hget (req "s1" false) eq_refl). reflexivity.
  - rewrite (Hpost "a1b2" (req "s1" false) eq_refl). reflexivity.
  - reflexivity.
  - rewrite (Hget' (req "close" false) eq_refl). reflexivity.
  - rewrite (Hpost' "a1b2" (req "close" false) eq_refl). reflexivity.
  - rewrite (Hpost' "a1b2" (req "close" true) eq_refl). reflexivity.
Defined.

Lemma shutdown_closes_every_session_witness :
  let init k := {| mcp_session_id := Some k; is_initialize := true |} in
  let s := run [Post "7f1c" (init "s1"); Post "90ab" (init "s2")]
             initial_server in
  transports (shutdown ["s2"; "s1"] s) = ∅
  ∧ created (shutdown ["s2"; "s1"] s)
    = [ {| sessionId := "s1"; closed := true |};
        {| sessionId := "s2"; closed := true |} ].
Proof.
  intros init s.
  assert (reachable s) as Hs.
  { apply (reachable_step (Post "90ab" (init "s2"))).
    apply (reachable_step (Post "7f1c" (init "s1"))).
    apply reachable_initial. }
  destruct (shutdown_closes_every_session ["s2"; "s1"] s Hs)
    as (_ & Hempty & _).
  - intros k _ [t Hk].
    change (transports s) with (<["s2" := 1]> (<["s1" := 0]> ∅ : gmap string nat))
      in Hk.
    rewrite !lookup_insert in Hk. set_unfold.
    repeat case_decide; simplify_eq; auto.
  - split; [by apply Hempty|reflexivity].
Defined.

(** After an initialization under [__proto__] the transport it created is
    the table's prototype: shutdown neither visits nor closes it. *)
Example shutdown_keeps_prototype :
  let init k := {| mcp_session_id := Some k; is_initialize := true |} in
  let s := run [Post "7f1c" (init "__proto__"); Post "90ab" (init "s2")]
             initial_server in
  transports (shutdown ["s2"] s) !! "__proto__" = Some 0
  ∧ created (shutdown ["s2"] s)
    = [ {| sessionId := "__proto__"; closed := false |};
        {| sessionId := "s2"; closed := true |} ].
Proof. split; reflexivity. Qed.

Lemma shutdown_leaves_displaced_transport_witness :
  let init := {| mcp_session_id := Some "s1"; is_initialize := true |} in
  let s := run [Post "7f1c" init; Post "90ab" init] initial_server in
  live s 0 ∧ live (shutdown ["s1"] s) 0 ∧ transports (shutdown ["s1"] s) = ∅.
Proof.
  intros init s.
  assert (created (shutdown ["s1"] s) !! 0 = created s !! 0) as Hsame.
  { apply shutdown_leaves_displaced_transport. intros k.
    change (transports s) with (<["s1" := 1]> (<["s1" := 0]> ∅ : gmap string nat)).
    rewrite !lookup_insert.
    repeat case_decide; [discriminate..|by rewrite lookup_empty]. }
  split_and!.
  - by eexists.
  - unfold live. rewrite Hsame. by eexists.
  - reflexivity.
Defined.

Lemma handlers_reach_live_transports_witness :
  let req b := {| mcp_session_id := Some "s1"; is_initialize := b |} in
  let s := step (Post "7f1c" (req true)) initial_server in
  live s 0 ∧ ¬ live (onclose 0 s) 0.
Proof.
  intros req s.
  assert (reachable s) as Hs.
  { apply reachable_step, reachable_initial. }
  split.
  - apply (proj2 (handlers_reach_live_transports s "90ab" (req false) 0 Hs
                    ltac:(discriminate))).
    reflexivity.
  - intros (tr & Htr & Hc). injection Htr as <-. discriminate Hc.
Defined.

(** The exception: a transport created under [__proto__] stays the
    table's prototype when it closes, and requests that bear [__proto__]
    are still handed to it. *)
Example closed_prototype_is_still_reached :
  let req b := {| mcp_session_id := Some "__proto__"; is_initialize := b |} in
  let s := run [Post "7f1c" (req true); Close 0] initial_server in
  created s = [ {| sessionId := "__proto__"; closed := true |} ]
  ∧ mcpGetHandler (req false) s = HandleRequest 0
  ∧ mcpPostHandler "90ab" (req false) s = (s, HandleRequest 0).
Proof. split_and!; reflexivity. Qed.

End SessionExamples.

(** ** The odds report *)

Lemma forEach_throwing_from_appending {A}
    (f : string → nat → A → completion string) :
  appending_throwing f →
  ∀ l i result,
    forEach_throwing_from f i l result
    = match blocks_from f i l with
      | Normal blocks => Normal (result +:+ concat_blocks blocks)
      | Throw message => Throw message
      end.
Proof.
  intros Hf. induction l as [|x l IH]; intros i result; simpl.
  - by rewrite append_nil_r.
  - rewrite (Hf result). destruct (f "" i x) as [block|message]; [|done].
    rewrite IH. destruct (blocks_from f (S i) l) as [blocks|message]; [|done].
    simpl. by rewrite append_assoc.
Qed.

Lemma blocks_from_normal {A} (f : string → nat → A → completion string) l :
  ∀ i blocks,
    blocks_from f i l = Normal blocks →
    length blocks = length l
    ∧ ∀ j x, l !! j = Some x →
        ∃ block, blocks !! j = Some block ∧ f "" (i + j) x = Normal block.
Proof.
  induction l as [|x l IH]; intros i blocks; simpl.
  - intros [= <-]. by split.
  - destruct (f "" i x) as [block|] eqn:Hx; [|done].
    destruct (blocks_from f (S i) l) as [blocks'|] eqn:Hl; [|done].
    intros [= <-]. destruct (IH _ _ Hl) as [Hlen Hblocks].
    split; [simpl; by rewrite Hlen|].
    intros [|j] y Hy; simpl in Hy.
    + injection Hy as <-. exists block. by rewrite Nat.add_0_r.
    + destruct (Hblocks j y Hy) as (b & Hb & Hf). exists b.
      split; [done|]. by rewrite <- Nat.add_succ_comm.
Qed.

Lemma forEach_throwing_from_normal_iff {A}
    (f : string → nat → A → completion string) (P : A → Prop) :
  (∀ result i x, (∃ result', f result i x = Normal result') ↔ P x) →
  ∀ l i result,
    (∃ result', forEach_throwing_from f i l result = Normal result')
    ↔ Forall P l.
Proof.
  intros Hf. induction l as [|x l IH]; intros i result; simpl.
  - split; [by constructor|by eexists].
  - rewrite Forall_cons, <- (Hf result i x).
    destruct (f result i x) as [result'|message].
    + rewrite IH. split; [|by intros [_ ?]]. intros ?. split; [by eexists|done].
    + split; [by intros [? ?]|]. by intros [[? ?] _].
Qed.

Section OddsFacts.
Context `{Engine}.

Lemma odds_outcome_appending : appending odds_outcome.
Proof.
  intros result i o. unfold odds_outcome.
  destruct (0 <? i)%nat, (point o) as [p|]; try destruct (truthy_number p);
    by rewrite ?append_nil_l, ?append_assoc.
Qed.

Lemma odds_market_appending : appending odds_market.
Proof.
  intros result i m. unfold odds_market.
  rewrite (forEach_appending _ _ (result +:+ _)) by apply odds_outcome_appending.
  rewrite (forEach_appending _ _ ("" +:+ _)) by apply odds_outcome_appending.
  by rewrite append_nil_l, !append_assoc.
Qed.

Lemma odds_bookmaker_appending : appending_throwing odds_bookmaker.
Proof.
  intros result i b. unfold odds_bookmaker.
  destruct (bookmaker_markets b) as [ms|]; [|done].
  rewrite (forEach_appending _ _ (result +:+ _)) by apply odds_market_appending.
  rewrite (forEach_appending _ _ ("" +:+ _)) by apply odds_market_appending.
  by rewrite append_nil_l, !append_assoc.
Qed.

Lemma odds_game_appending : appending_throwing odds_game.
Proof.
  intros result index g. unfold odds_game.
  destruct (bookmakers g) as [[|b bs]|];
    [by rewrite append_nil_l, !append_assoc| |
     by rewrite append_nil_l, !append_assoc].
  unfold forEach_throwing.
  rewrite !(forEach_throwing_from_appending _ odds_bookmaker_appending).
  destruct (blocks_from odds_bookmaker 0 (b :: bs)) as [blocks|]; [|done].
  by rewrite append_nil_l, !append_assoc.
Qed.

(** The block of a game starts with the game's numbered heading. *)
Lemma odds_game_starts_with_heading index g block :
  odds_game "" index g = Normal block →
  ∃ rest, block = odds_game_heading index g +:+ rest.
Proof.
  unfold odds_game, odds_game_heading.
  destruct (bookmakers g) as [[|b bs]|].
  - intros [= <-]. eexists. by rewrite append_nil_l, !append_assoc.
  - unfold forEach_throwing.
    rewrite (forEach_throwing_from_appending _ odds_bookmaker_appending).
    destruct (blocks_from odds_bookmaker 0 (b :: bs)) as [blocks|]; [|done].
    intros [= <-]. eexists. by rewrite append_nil_l, !append_assoc.
  - intros [= <-]. eexists. by rewrite append_nil_l, !append_assoc.
Qed.

Lemma odds_bookmaker_normal_iff result i b :
  (∃ result', odds_bookmaker result i b = Normal result')
  ↔ is_Some (bookmaker_markets b).
Proof.
  unfold odds_bookmaker. destruct (bookmaker_markets b) as [ms|].
  - split; [by eexists|by eexists].
  - split; [by intros [? ?]|by intros [? ?]].
Qed.

Lemma odds_game_normal_iff result index g :
  (∃ result', odds_game result index g = Normal result')
  ↔ bookmakers_have_markets g.
Proof.
  unfold odds_game, bookmakers_have_markets, forEach_throwing.
  destruct (bookmakers g) as [[|b bs]|].
  - split; [|by eexists]. intros _ bs' [= <-]. constructor.
  - pose proof (forEach_throwing_from_normal_iff odds_bookmaker _
                  odds_bookmaker_normal_iff (b :: bs) 0
                  ((result +:+ pretty (index + 1) +:+ ". " +:+ away_team g
                    +:+ " @ " +:+ home_team g +:+ newline)
                   +:+ "   Starts: " +:+ date_toLocaleString (commence_time g)
                   +:+ newline)) as Hiff.
    destruct (forEach_throwing_from _ _ _ _) as [result'|message].
    + split; [|by eexists]. intros _ bs' [= <-]. apply Hiff. by eexists.
    + split; [by intros [? ?]|]. intros Hall.
      destruct (proj2 Hiff (Hall _ eq_refl)) as [? ?]. discriminate.
  - split; [|by eexists]. by intros _ bs'.
Qed.

(** What the odds tool returns once its call has brought an array. *)
Lemma fetch_sports_odds_fetched net now a calls data :
  odds_fetched net calls a data →
  fetch_sports_odds net now a calls =
    (match data with
     | [] =>
         Content (odds_header now a +:+ "No games found for this sport."
                  +:+ newline)
     | _ =>
         match blocks_from odds_game 0 data with
         | Normal blocks =>
             Content (odds_header now a +:+ "Found " +:+ pretty (length data)
                      +:+ " games:" +:+ newline +:+ newline
                      +:+ concat_blocks blocks)
         | Throw message =>
             ToolError ("Failed to execute fetch_sports_odds: " +:+ message)
         end
     end,
     calls ++ [odds_request_url a]).
Proof.
  intros (r & Hnet & Hok & Hbody).
  unfold fetch_sports_odds, fetch_sports_odds_try, bind, fetch, lift, ret.
  unfold odds_request_url in Hnet. rewrite Hnet, Hok, Hbody. cbn [negb].
  unfold odds_header, odds_request_url.
  destruct data as [|g gs]; [by rewrite !append_assoc|].
  unfold forEach_throwing.
  rewrite (forEach_throwing_from_appending _ odds_game_appending).
  destruct (blocks_from odds_game 0 (g :: gs)) as [blocks|message]; [|done].
  by rewrite !append_assoc.
Qed.

Lemma blocks_from_odds_game_normal_iff data :
  (∃ blocks, blocks_from odds_game 0 data = Normal blocks)
  ↔ Forall bookmakers_have_markets data.
Proof.
  rewrite <- (forEach_throwing_from_normal_iff odds_game _
                odds_game_normal_iff data 0 "").
  rewrite (forEach_throwing_from_appending _ odds_game_appending).
  destruct (blocks_from odds_game 0 data) as [blocks|message].
  - split; by eexists.
  - split; by intros [? ?].
Qed.

(** An empty array from the provider gives the report with the header and
    the line that no games were found, after the one call. *)
Theorem odds_report_of_no_games net now a calls :
  odds_fetched net calls a [] →
  fetch_sports_odds net now a calls
  = (Content (odds_header now a +:+ "No games found for this sport."
              +:+ newline),
     calls ++ [odds_request_url a]).
Proof. intros Hf. by rewrite (fetch_sports_odds_fetched _ _ _ _ [] Hf). Qed.

(** When every bookmaker of the answer comes with markets, the odds report
    is the header, the count of games, and one block for each game of the
    answer, in the provider's order; the block of a game is the game's own
    rendering and starts with its number and its teams. *)
Theorem odds_report_renders_every_game net now a calls data :
  odds_fetched net calls a data →
  data ≠ [] →
  Forall bookmakers_have_markets data →
  ∃ blocks,
    (fetch_sports_odds net now a calls).1
    = Content (odds_header now a +:+ "Found " +:+ pretty (length data)
               +:+ " games:" +:+ newline +:+ newline +:+ concat_blocks blocks)
    ∧ length blocks = length data
    ∧ ∀ i g, data !! i = Some g →
        ∃ block rest,
          blocks !! i = Some block
          ∧ odds_game "" i g = Normal block
          ∧ block = odds_game_heading i g +:+ rest.
Proof.
  intros Hf Hne [blocks Hblocks]%blocks_from_odds_game_normal_iff.
  exists blocks. rewrite (fetch_sports_odds_fetched _ _ _ _ data Hf), Hblocks.
  destruct (blocks_from_normal _ _ _ _ Hblocks) as [Hlen Hall].
  split_and!; [by destruct data|done|].
  intros i g Hi. destruct (Hall i g Hi) as (block & Hb & Hg).
  destruct (odds_game_starts_with_heading _ _ _ Hg) as [rest ->].
  by exists (odds_game_heading i g +:+ rest), rest.
Qed.

(** A bookmaker without markets anywhere in the answer fails the whole
    odds call; whatever fails, the tool throws with its prefix on the
    message; and it makes one call, whatever comes back. *)
Theorem odds_call_outcomes net now a calls :
  (∀ data g bs b,
     odds_fetched net calls a data →
     g ∈ data → bookmakers g = Some bs → b ∈ bs →
     bookmaker_markets b = None →
     ∃ message,
       (fetch_sports_odds net now a calls).1
       = ToolError ("Failed to execute fetch_sports_odds: " +:+ message))
  ∧ ((∃ message,
        (fetch_sports_odds net now a calls).1
        = ToolError ("Failed to execute fetch_sports_odds: " +:+ message))
     ∨ ∃ text, (fetch_sports_odds net now a calls).1 = Content text)
  ∧ (fetch_sports_odds net now a calls).2 = calls ++ [odds_request_url a].
Proof.
  split_and!; [|by unfold fetch_sports_odds;
                 destruct (fetch_sports_odds_try _ _ _ _) as [[?|?] ?];
                 [right|left]; eexists
               |apply fetch_sports_odds_calls].
  intros data g bs b Hf Hg Hbs Hb Hnone.
  rewrite (fetch_sports_odds_fetched _ _ _ _ data Hf).
  destruct data as [|g0 gs]; [by apply elem_of_nil in Hg|].
  destruct (blocks_from odds_game 0 (g0 :: gs)) as [blocks|message] eqn:Hblocks;
    [|by eexists].
  assert (Forall bookmakers_have_markets (g0 :: gs)) as Hall.
  { apply blocks_from_odds_game_normal_iff. by eexists. }
  rewrite Forall_forall in Hall. specialize (Hall g Hg bs Hbs).
  rewrite Forall_forall in Hall. destruct (Hall b Hb) as [ms Hms]. congruence.
Qed.

(** ** One line for each market of the odds report *)

Lemma odds_outcome_later i o :
  odds_outcome "" (S i) o = ", " +:+ odds_outcome "" 0 o.
Proof.
  unfold odds_outcome. simpl.
  destruct (point o) as [p|]; [destruct (truthy_number p)|];
    by rewrite ?append_nil_l, ?append_assoc.
Qed.

Lemma forEach_from_odds_outcome_later os :
  ∀ i result,
    forEach_from odds_outcome (S i) os result
    = result +:+ concat_blocks (map (λ o, ", " +:+ odds_outcome "" 0 o) os).
Proof.
  induction os as [|o os IH]; intros i result; simpl.
  - by rewrite append_nil_r.
  - rewrite IH, (odds_outcome_appending result), odds_outcome_later.
    by rewrite append_assoc.
Qed.

Lemma join_cons sep x xs :
  join sep (x :: xs) = x +:+ concat_blocks (map (λ y, sep +:+ y) xs).
Proof.
  revert x. induction xs as [|y xs IH]; intros x.
  - simpl. by rewrite append_nil_r.
  - change (join sep (x :: y :: xs)) with (x +:+ sep +:+ join sep (y :: xs)).
    rewrite IH. simpl. by rewrite append_assoc.
Qed.

Lemma odds_market_joins_outcomes i m :
  odds_market "" i m
  = "     " +:+ key m +:+ ": "
    +:+ join ", " (map (odds_outcome "" 0) (outcomes m)) +:+ newline.
Proof.
  unfold odds_market, forEach. rewrite append_nil_l.
  destruct (outcomes m) as [|o os]; [simpl; by rewrite !append_assoc|].
  cbn [forEach_from]. rewrite forEach_from_odds_outcome_later.
  rewrite (odds_outcome_appending (_ +:+ _)). cbn [map].
  rewrite (join_cons ", " (odds_outcome "" 0 o)), map_map.
  by rewrite !append_assoc.
Qed.

Lemma odds_outcome_is_text o : odds_outcome "" 0 o = odds_outcome_text o.
Proof.
  unfold odds_outcome, odds_outcome_text, point_text. simpl.
  destruct (point o) as [p|]; [destruct (truthy_number p)|];
    by rewrite ?append_nil_l, ?append_assoc, ?append_nil_r.
Qed.

(** The outcomes of a market are rendered on one line, joined by commas:
    the market key, then each outcome as its name, its price in
    parentheses, and its point when it has one that is not zero. *)
Theorem odds_market_is_one_joined_line i m :
  odds_market "" i m
  = "     " +:+ key m +:+ ": "
    +:+ join ", " (map odds_outcome_text (outcomes m)) +:+ newline.
Proof.
  rewrite odds_market_joins_outcomes.
  by rewrite (map_ext _ odds_outcome_text) by apply odds_outcome_is_text.
Qed.

End OddsFacts.

(** ** The odds theorems at work on the example data *)

Lemma odds_report_of_no_games_witness :
  fetch_sports_odds (H := example_engine) example_odds_network_empty
    example_now (example_arguments "icehockey_nhl" None) []
  = (Content
       (join newline
          [ "Sports Odds Report - ICEHOCKEY_NHL";
            "Generated: 7/1/2025, 9:00:00 AM";
            "Markets: h2h";
            "Regions: us";
            "";
            "No games found for this sport.";
            "" ]),
     [ odds_url "icehockey_nhl" ["h2h"] "us" ]).
Proof.
  apply (odds_report_of_no_games (H := example_engine)
           example_odds_network_empty example_now
           (example_arguments "icehockey_nhl" None) []).
  eexists. split_and!; reflexivity.
Defined.

Lemma example_odds_games_have_markets :
  Forall bookmakers_have_markets example_odds_games.
Proof.
  repeat constructor; intros bs [= <-]. repeat constructor. by eexists.
Defined.

Lemma odds_report_renders_every_game_witness :
  ∃ blocks,
    (fetch_sports_odds (H := example_engine) example_odds_network example_now
       (example_arguments "baseball_mlb" None) []).1
    = Content
        (join newline
           [ "Sports Odds Report - BASEBALL_MLB";
             "Generated: 7/1/2025, 9:00:00 AM";
             "Markets: h2h";
             "Regions: us";
             "";
             "Found 2 games:";
             ""; "" ]
         +:+ concat_blocks blocks)
    ∧ blocks
      = [ join newline
            [ "1. Boston Red Sox @ New York Yankees";
              "   Starts: 2025-07-01T23:05:00Z";
              "   FanDuel:";
              "     h2h: Boston Red Sox (2), New York Yankees (3)";
              ""; "" ];
          join newline
            [ "2. Chicago Cubs @ New York Mets";
              "   Starts: 2025-07-01T23:05:00Z";
              ""; "" ] ].
Proof.
  destruct (odds_report_renders_every_game (H := example_engine)
              example_odds_network example_now
              (example_arguments "baseball_mlb" None) [] example_odds_games)
    as (blocks & Hreport & Hlen & Hblocks).
  - eexists. split_and!; reflexivity.
  - discriminate.
  - exact example_odds_games_have_markets.
  - exists blocks. split; [exact Hreport|].
    destruct (Hblocks 0 _ eq_refl) as (b0 & _ & H0 & Hb0 & _).
    destruct (Hblocks 1 _ eq_refl) as (b1 & _ & H1 & Hb1 & _).
    destruct blocks as [|x0 [|x1 [|x2 xs]]]; try discriminate Hlen.
    injection H0 as ->. injection H1 as ->.
    injection Hb0 as <-. injection Hb1 as <-. reflexivity.
Defined.

Lemma odds_call_outcomes_witness :
  (∃ message,
     (fetch_sports_odds (H := example_engine) example_odds_network_broken
        example_now (example_arguments "baseball_mlb" None) []).1
     = ToolError ("Failed to execute fetch_sports_odds: " +:+ message))
  ∧ fetch_sports_odds (H := example_engine) example_odds_network_broken
      example_now (example_arguments "baseball_mlb" None) []
    = (ToolError
         ("Failed to execute fetch_sports_odds: "
          +:+ "Cannot read properties of undefined (reading 'forEach')"),
       [ odds_url "baseball_mlb" ["h2h"] "us" ]).
Proof.
  split; [|reflexivity].
  apply (proj1 (odds_call_outcomes (H := example_engine)
                  example_odds_network_broken example_now
                  (example_arguments "baseball_mlb" None) [])
           example_broken_games
           (example_odds yankees_event
              (Some [example_fanduel; example_broken_bookmaker]))
           [example_fanduel; example_broken_bookmaker]
           example_broken_bookmaker).
  - eexists. split_and!; reflexivity.
  - apply list_elem_of_In. simpl. tauto.
  - reflexivity.
  - apply list_elem_of_In. simpl. tauto.
  - reflexivity.
Defined.

Lemma odds_market_is_one_joined_line_witness :
  odds_market (H := example_engine) "" 0 example_moneyline
  = "     h2h: Boston Red Sox (2), New York Yankees (3)" +:+ newline
  ∧ odds_market (H := example_engine) "" 0 example_home_runs
    = "     batter_home_runs: Over (3) 1, Under (2)" +:+ newline.
Proof.
  rewrite (odds_market_is_one_joined_line (H := example_engine) 0
             example_moneyline).
  rewrite (odds_market_is_one_joined_line (H := example_engine) 0
             example_home_runs).
  split; reflexivity.
Defined.

(** ** More on the props report *)

Lemma filter_sublist {A} (p : A → bool) (l : list A) :
  List.filter p l `sublist_of` l.
Proof.
  induction l as [|x l IH]; simpl; [constructor|].
  destruct (p x); by constructor.
Qed.

Lemma length_append (a b : string) :
  String.length (a +:+ b) = String.length a + String.length b.
Proof.
  induction a as [|x a IH]; [done|]. rewrite append_cons. simpl. by rewrite IH.
Qed.

Lemma append_inv_tail (a b c : string) : a +:+ c = b +:+ c → a = b.
Proof.
  revert b. induction a as [|x a IH]; intros [|y b] Heq; [done| | |].
  - apply (f_equal String.length) in Heq.
    rewrite append_cons, append_nil_l in Heq. simpl in Heq.
    rewrite length_append in Heq. lia.
  - apply (f_equal String.length) in Heq.
    rewrite append_cons, append_nil_l in Heq. simpl in Heq.
    rewrite length_append in Heq. lia.
  - rewrite !append_cons in Heq. injection Heq as -> Heq. f_equal. by apply IH.
Qed.

Lemma append_inv_head (a b c : string) : a +:+ b = a +:+ c → b = c.
Proof.
  induction a as [|x a IH]; [done|].
  rewrite !append_cons. intros [= Heq]. by apply IH.
Qed.

Lemma forEach_from_concat {A} (f : string → nat → A → string) :
  appending f →
  (∀ i x, f "" i x = f "" 0 x) →
  ∀ l i result,
    forEach_from f i l result = result +:+ concat_blocks (map (f "" 0) l).
Proof.
  intros Hf Hi. induction l as [|x l IH]; intros i result; simpl.
  - by rewrite append_nil_r.
  - by rewrite IH, (Hf result), Hi, append_assoc.
Qed.


(** Two events get the same per-event URL only when they have the same
    identifier. *)
Theorem propsUrl_determines_event sport markets e1 e2 :
  propsUrl sport markets e1 = propsUrl sport markets e2 → id e1 = id e2.
Proof.
  unfold propsUrl. intros Heq.
  do 4 apply append_inv_head in Heq. by apply append_inv_tail in Heq.
Qed.

Lemma propsUrl_determines_event_witness :
  id (example_odds yankees_event (Some [example_draftkings])) = id yankees_event.
Proof.
  apply (propsUrl_determines_event "baseball_mlb" ["batter_home_runs"]).
  reflexivity.
Defined.

Section PropsFacts.
Context `{Engine}.

Lemma filterEvents_sublist team_filter events :
  filterEvents team_filter events `sublist_of` events.
Proof.
  unfold filterEvents. destruct team_filter as [f|]; [|done].
  destruct (truthy_string f); [apply filter_sublist|done].
Qed.


(** The events an invocation processes are events of the provider's
    answer, in the provider's order, and at most three; with no filter, or
    with the empty string as filter, they are the first three. *)
Theorem processed_is_a_sublist a events :
  processed a events `sublist_of` events
  ∧ (length (processed a events) ≤ 3)%nat
  ∧ (truthy_opt_string (team_filter a) = false →
     processed a events = take 3 events).
Proof.
  unfold processed, gamesToProcess. split_and!.
  - etrans; [apply sublist_take|apply filterEvents_sublist].
  - rewrite length_take. lia.
  - intros Hf. unfold filterEvents.
    destruct (team_filter a) as [f|]; [|done]. simpl in Hf. by rewrite Hf.
Qed.

(** When the events call fails - the fetch throws, the status is not 2xx,
    the body cannot be read, or the body is one event object instead of
    an array - the props tool throws, with its prefix on the message,
    after that one call: it makes no per-event call. *)
Theorem events_call_failure_stops_tool net now a calls :
  (∀ message,
     net (length calls) (events_url (sport a)) = Throw message →
     fetch_player_props net now a calls
     = (ToolError ("Failed to fetch player props: " +:+ message),
        calls ++ [events_url (sport a)]))
  ∧ (∀ r,
       net (length calls) (events_url (sport a)) = Normal r →
       ok r = false →
       fetch_player_props net now a calls
       = (ToolError ("Failed to fetch player props: "
                     +:+ "Events API call failed: " +:+ pretty (status r)),
          calls ++ [events_url (sport a)]))
  ∧ (∀ r message,
       net (length calls) (events_url (sport a)) = Normal r →
       ok r = true → body r = Throw message →
       fetch_player_props net now a calls
       = (ToolError ("Failed to fetch player props: " +:+ message),
          calls ++ [events_url (sport a)]))
  ∧ (∀ r g,
       net (length calls) (events_url (sport a)) = Normal r →
       ok r = true → body r = Normal (JsonObject g) →
       ∃ message,
         fetch_player_props net now a calls
         = (ToolError ("Failed to fetch player props: " +:+ message),
            calls ++ [events_url (sport a)])).
Proof.
  split_and!.
  - intros message Hnet.
    unfold fetch_player_props, fetch_player_props_try, bind, fetch.
    by rewrite Hnet.
  - intros r Hnet Hok. by apply fetch_player_props_not_ok.
  - intros r message Hnet Hok Hbody.
    unfold fetch_player_props, fetch_player_props_try, bind, fetch, lift.
    by rewrite Hnet, Hok, Hbody.
  - intros r g Hnet Hok Hbody.
    unfold fetch_player_props, fetch_player_props_try, bind, fetch, lift,
      throw.
    rewrite Hnet, Hok, Hbody. cbn [negb].
    destruct (truthy_opt_string _); by eexists.
Qed.

(** The block of an event renders the markets of DraftKings and of no
    other bookmaker: the answer with all its bookmakers gives the block
    that the answer with the DraftKings entry alone gives. *)
Theorem props_event_renders_draftkings_only result event g bs draftkings :
  bookmakers g = Some bs →
  List.find is_draftkings bs = Some draftkings →
  props_event result event (JsonObject g)
  = props_event result event (JsonObject (with_bookmakers g [draftkings])).
Proof.
  intros Hbs Hfind. unfold props_event, with_bookmakers.
  cbn [propsData_bookmakers bookmakers]. rewrite Hbs.
  destruct bs as [|b bs']; [done|]. rewrite Hfind. cbn [List.find].
  apply find_some in Hfind as [_ Hdk]. by rewrite Hdk.
Qed.

Lemma props_outcome_is_line i o : props_outcome "" i o = props_outcome_line o.
Proof.
  unfold props_outcome, props_outcome_line, player_name, point_text.
  by rewrite append_nil_l.
Qed.

(** A market section of the props report is its heading, the market key
    with spaces for underscores and in upper case, and one line for each
    outcome, in order: two spaces, the player (the outcome's description,
    or its name when there is none), the outcome's name, its point when
    it has one that is not zero, and its price in parentheses. *)
Theorem props_market_is_heading_and_lines i m :
  props_market "" i m
  = props_market_heading m
    +:+ concat_blocks (map props_outcome_line (outcomes m)).
Proof.
  unfold props_market, props_market_heading, forEach.
  rewrite (forEach_from_concat props_outcome props_outcome_appending)
    by (intros; by rewrite !props_outcome_is_line).
  rewrite (map_ext _ props_outcome_line)
    by (intros; apply props_outcome_is_line).
  by rewrite append_nil_l, !append_assoc.
Qed.

End PropsFacts.


Lemma processed_is_a_sublist_witness :
  processed (H := example_engine) (example_arguments "baseball_mlb" (Some ""))
    example_events
  = [yankees_event; mets_event; dodgers_event].
Proof.
  apply (processed_is_a_sublist (H := example_engine)
           (example_arguments "baseball_mlb" (Some "")) example_events).
  reflexivity.
Defined.

Lemma events_call_failure_stops_tool_witness :
  fetch_player_props (H := example_engine) example_network_down example_now
    (example_arguments "baseball_mlb" None) []
  = (ToolError "Failed to fetch player props: fetch failed",
     [ events_url "baseball_mlb" ]).
Proof.
  apply (proj1 (events_call_failure_stops_tool (H := example_engine)
                  example_network_down example_now
                  (example_arguments "baseball_mlb" None) [])).
  reflexivity.
Defined.

Lemma props_event_renders_draftkings_only_witness :
  props_event (H := example_engine) "" yankees_event
    (JsonObject (example_odds yankees_event
                   (Some [example_fanduel; example_draftkings])))
  = join newline
      [ "--- Boston Red Sox @ New York Yankees ---";
        "Starts: 2025-07-01T23:05:00Z";
        "";
        "BATTER HOME RUNS:";
        "  Aaron Judge: Over 1 (3)";
        "  Aaron Judge: Under (2)";
        ""; "" ].
Proof.
  rewrite (props_event_renders_draftkings_only (H := example_engine) ""
             yankees_event
             (example_odds yankees_event
                (Some [example_fanduel; example_draftkings]))
             [example_fanduel; example_draftkings]
             example_draftkings eq_refl eq_refl).
  reflexivity.
Defined.

Lemma props_market_is_heading_and_lines_witness :
  props_market (H := example_engine) "" 0 example_home_runs
  = join newline
      [ ""; "BATTER HOME RUNS:"; "  Aaron Judge: Over 1 (3)";
        "  Aaron Judge: Under (2)"; "" ].
Proof.
  rewrite (props_market_is_heading_and_lines (H := example_engine) 0
             example_home_runs).
  reflexivity.
Defined.
